(** * thco-wallet-api: the Shopify "orders paid" webhook and the wallet query

    A shallow embedding of [src/index.js].  The file holds two successive
    versions of the same program; every function and both routes are
    declared twice.  The later [calcPoints] (3 points per RM1) is the one in
    effect, the two [app.post] bodies are identical, and the model follows
    the later version (lines 126-320), keeping the earlier [calcPoints] as
    [calcPoints_first].

    - JavaScript numbers are IEEE-754 binary64 values: a finite number is
      the rational it denotes, and every arithmetic result goes through
      [round64] (round to nearest, ties to even, 53-bit significand,
      exponent range written out).  The sign of zero is not tracked.
    - JavaScript strings are [string]s of bytes; white space is the ASCII
      white space.
    - The Supabase tables are lists of rows; the calls the handlers make
      (select/eq/single/maybeSingle, insert, upsert, update) are functions on
      that store.  The handlers run in a state-and-exception monad, and one
      request is processed at a time.
    - HMAC-SHA256, [JSON.parse] and [Number.prototype.toString] are platform
      functions and enter as section variables. *)

From Stdlib Require Import ZArith QArith Qround Qabs Qcanon Qpower SpecFloat.
From Stdlib Require Import List String Ascii Bool Lia Lqa.
Import ListNotations.

Local Open Scope Z_scope.

(** ** JavaScript numbers *)

Module Number.

Inductive number : Type :=
| NaN
| Infinity (negative : bool)
| Finite (q : Q).

(** Quotient of [a] by [b] rounded to the nearest integer, ties to even. *)
Definition div_nearest_even (a b : Z) : Z :=
  let q := a / b in
  let r := a mod b in
  match 2 * r ?= b with
  | Lt => q
  | Gt => q + 1
  | Eq => if Z.even q then q else q + 1
  end.

(** The binary exponent [e] of the unit in the last place of [n/d]:
    [2^52 <= (n/d) / 2^e < 2^53], but never below the subnormal
    exponent -1074. *)
Definition ulp_exponent (n d : Z) : Z :=
  let ln := Z.log2 n in
  let ld := Z.log2 d in
  let e := ln - ld - 52 - (if n * 2 ^ ld <? d * 2 ^ ln then 1 else 0) in
  Z.max e (-1074).

(** The significand of [n/d] at exponent [e]. *)
Definition significand (n d e : Z) : Z :=
  if 0 <=? e then div_nearest_even n (d * 2 ^ e)
  else div_nearest_even (n * 2 ^ (- e)) d.

(** [m * 2^e] as a rational in lowest terms. *)
Definition scale2 (m e : Z) : Q :=
  if 0 <=? e then inject_Z (m * 2 ^ e)
  else Qred (Qmake m (Z.to_pos (2 ^ (- e)))).

(** Rounding of the positive rational [n/d] to binary64. *)
Definition round_pos (negative : bool) (n d : Z) : number :=
  let e := ulp_exponent n d in
  let m := significand n d e in
  if (0 <=? e) && (2 ^ 1024 <=? m * 2 ^ e) then Infinity negative
  else Finite (scale2 (if negative then - m else m) e).

Definition round64 (q : Q) : number :=
  match Qnum q with
  | Z0 => Finite 0
  | Zpos n => round_pos false (Zpos n) (Zpos (Qden q))
  | Zneg n => round_pos true (Zpos n) (Zpos (Qden q))
  end.

Definition of_Z (z : Z) : number := round64 (inject_Z z).

(** The integer a number denotes, when it denotes one. *)
Definition to_Z (x : number) : option Z :=
  match x with
  | Finite q => if Qeq_bool q (inject_Z (Qfloor q)) then Some (Qfloor q) else None
  | _ => None
  end.

(** [x * y] *)
Definition mul (x y : number) : number :=
  match x, y with
  | NaN, _ | _, NaN => NaN
  | Infinity s, Infinity t => Infinity (xorb s t)
  | Infinity s, Finite q | Finite q, Infinity s =>
      match Qnum q with
      | Z0 => NaN
      | Zpos _ => Infinity s
      | Zneg _ => Infinity (negb s)
      end
  | Finite p, Finite q => round64 (p * q)
  end.

(** [x + y] *)
Definition add (x y : number) : number :=
  match x, y with
  | NaN, _ | _, NaN => NaN
  | Infinity s, Infinity t => if Bool.eqb s t then Infinity s else NaN
  | Infinity s, Finite _ | Finite _, Infinity s => Infinity s
  | Finite p, Finite q => round64 (p + q)
  end.

(** [Math.floor(x)] *)
Definition floor (x : number) : number :=
  match x with
  | Finite q => Finite (inject_Z (Qfloor q))
  | _ => x
  end.

(** [ToBoolean] on a number: [NaN] and zero are falsy. *)
Definition truthy (x : number) : bool :=
  match x with
  | NaN => false
  | Infinity _ => true
  | Finite q => negb (Qnum q =? 0)
  end.

(** [x || y] on numbers *)
Definition or (x y : number) : number := if truthy x then x else y.

End Number.
Export Number.

(** ** parseFloat *)

Module ParseFloat.

Local Open Scope string_scope.
Local Open Scope Z_scope.

(** WhiteSpace and LineTerminator code units below 128. *)
Definition is_white_space (c : ascii) : bool :=
  let n := N_of_ascii c in
  ((9 <=? n) && (n <=? 13) || (n =? 32))%N.

Fixpoint skip_white_space (s : string) : string :=
  match s with
  | String c r => if is_white_space c then skip_white_space r else s
  | EmptyString => s
  end.

Definition digit_value (c : ascii) : option Z :=
  let n := N_of_ascii c in
  if ((48 <=? n) && (n <=? 57))%N then Some (Z.of_N n - 48) else None.

(** The longest run of decimal digits at the head of [s]: its value
    appended to [acc], its length added to [count], and what follows. *)
Fixpoint digits (s : string) (acc count : Z) : Z * Z * string :=
  match s with
  | String c r =>
      match digit_value c with
      | Some v => digits r (10 * acc + v) (count + 1)
      | None => (acc, count, s)
      end
  | EmptyString => (acc, count, s)
  end.

(** ExponentPart, when one is there: [e] or [E], an optional sign, and
    at least one digit. *)
Definition exponent_part (s : string) : Z :=
  match s with
  | String c r =>
      if (Ascii.eqb c "e" || Ascii.eqb c "E")%char then
        let '(negative, r') :=
          match r with
          | String "-"%char t => (true, t)
          | String "+"%char t => (false, t)
          | _ => (false, r)
          end in
        let '(x, count, _) := digits r' 0 0 in
        if count =? 0 then 0 else if negative then - x else x
      else 0
  | EmptyString => 0
  end.

Inductive literal : Type :=
| LitInfinity
| LitDecimal (mantissa exponent10 : Z).

(** The longest prefix of [s] that is a StrUnsignedDecimalLiteral. *)
Definition unsigned_literal (s : string) : option literal :=
  if String.prefix "Infinity" s then Some LitInfinity
  else
    let '(ip, ni, r1) := digits s 0 0 in
    let '(m, nf, r2) :=
      match r1 with
      | String "."%char r => digits r ip 0
      | _ => (ip, 0, r1)
      end in
    if (ni =? 0) && (nf =? 0) then None
    else Some (LitDecimal m (exponent_part r2 - nf)).

(** The mathematical value [m * 10^x]. *)
Definition decimal_value (m x : Z) : Q :=
  if 0 <=? x then inject_Z (m * 10 ^ x)
  else Qmake m (Z.to_pos (10 ^ (- x))).

Definition parseFloat (s : string) : number :=
  let t := skip_white_space s in
  let '(negative, u) :=
    match t with
    | String "-"%char r => (true, r)
    | String "+"%char r => (false, r)
    | _ => (false, t)
    end in
  match unsigned_literal u with
  | None => NaN
  | Some LitInfinity => Infinity negative
  | Some (LitDecimal m x) =>
      round64 (decimal_value (if negative then - m else m) x)
  end.

End ParseFloat.
Export ParseFloat.

(** ** JavaScript values *)

#[local] Set Warnings "-register-all".

Inductive value : Type :=
| VUndefined
| VNull
| VBool (b : bool)
| VNum (n : number)
| VStr (s : string)
| VArr (items : list value)
| VObj (fields : list (string * value)).

(** [ToBoolean] *)
Definition ToBoolean (v : value) : bool :=
  match v with
  | VUndefined | VNull => false
  | VBool b => b
  | VNum n => Number.truthy n
  | VStr s => negb (String.eqb s "")
  | VArr _ | VObj _ => true
  end.

(** [a || b] *)
Definition or_else (a b : value) : value := if ToBoolean a then a else b.

Fixpoint lookup (key : string) (fields : list (string * value)) : value :=
  match fields with
  | [] => VUndefined
  | (k, v) :: rest => if String.eqb k key then v else lookup key rest
  end.

(** [o.key] where [o] is neither [null] nor [undefined]. *)
Definition property (o : value) (key : string) : value :=
  match o with
  | VObj fields => lookup key fields
  | _ => VUndefined
  end.

Definition nullish (v : value) : bool :=
  match v with
  | VUndefined | VNull => true
  | _ => false
  end.

(** [String.prototype.trim], on ASCII white space *)
Fixpoint trim_end (s : string) : string :=
  match s with
  | EmptyString => EmptyString
  | String c r =>
      match trim_end r with
      | EmptyString => if is_white_space c then EmptyString else String c EmptyString
      | r' => String c r'
      end
  end.

Definition trim (s : string) : string := trim_end (skip_white_space s).

(** ** The tables *)

Module Users.
Record row : Type :=
  { id : Z; shopify_customer_id : string; email : value; name : string }.
End Users.

Module Wallets.
Record row : Type :=
  { id : Z; user_id : Z; points : Z; lifetime_points : Z;
    updated_at : option string }.
End Wallets.

Module WalletTransactions.
Record row : Type :=
  { wallet_id : Z; type : string; source : string;
    shopify_order_id : string; points_change : Z; note : string }.
End WalletTransactions.

Record store : Type :=
  { users : list Users.row;
    wallets : list Wallets.row;
    wallet_transactions : list WalletTransactions.row }.

(** ** The state-and-exception monad of a request handler *)

Inductive completion (A : Type) : Type :=
| Normal (a : A)
| Throw (error : string).
Arguments Normal {A} a.
Arguments Throw {A} error.

Definition M (A : Type) : Type := store -> completion A * store.

Definition ret {A} (a : A) : M A := fun st => (Normal a, st).

Definition throw {A} (error : string) : M A := fun st => (Throw error, st).

Definition bind {A B} (m : M A) (k : A -> M B) : M B :=
  fun st =>
    match m st with
    | (Normal a, st') => k a st'
    | (Throw e, st') => (Throw e, st')
    end.

(** [try { body } catch (error) { handler }]: what the body wrote before
    it threw stays written. *)
Definition try_catch {A} (body : M A) (handler : string -> M A) : M A :=
  fun st =>
    match body st with
    | (Normal a, st') => (Normal a, st')
    | (Throw e, st') => handler e st'
    end.

Declare Scope js_scope.
Delimit Scope js_scope with js.
Notation "x <- m ;; k" := (bind m (fun x => k))
  (at level 100, m at next level, right associativity) : js_scope.
Notation "m ;; k" := (bind m (fun _ => k))
  (at level 100, right associativity) : js_scope.

(** ** The Supabase client *)

(** What a query resolves to: [{ data, error }].  The client does not
    throw. *)
Record reply (A : Type) : Type := { data : option A; error : bool }.
Arguments data {A} r.
Arguments error {A} r.

(** [.single()]: exactly one row, or an error and no data. *)
Definition single {A} (rows : list A) : reply A :=
  match rows with
  | [r] => {| data := Some r; error := false |}
  | _ => {| data := None; error := true |}
  end.

(** [.maybeSingle()]: no row is not an error. *)
Definition maybeSingle {A} (rows : list A) : reply A :=
  match rows with
  | [] => {| data := None; error := false |}
  | [r] => {| data := Some r; error := false |}
  | _ => {| data := None; error := true |}
  end.

(** The id the store gives a new row: one not in the table. *)
Definition fresh_id (ids : list Z) : Z := 1 + fold_right Z.max 0 ids.

(** Modelled from the spec: the schema is not in the repository, and the
    point totals and the point delta are integers.  A numeric field sent
    to such a column is taken when it is a finite integer; otherwise
    ([Infinity] is sent as [null]) the statement fails and changes
    nothing. *)
Definition to_column (n : number) : option Z := Number.to_Z n.

Definition set_users (us : list Users.row) (st : store) : store :=
  {| users := us; wallets := wallets st;
     wallet_transactions := wallet_transactions st |}.

Definition set_wallets (ws : list Wallets.row) (st : store) : store :=
  {| users := users st; wallets := ws;
     wallet_transactions := wallet_transactions st |}.

Definition set_wallet_transactions (ts : list WalletTransactions.row)
    (st : store) : store :=
  {| users := users st; wallets := wallets st; wallet_transactions := ts |}.

(** The row filters [.eq('shopify_customer_id', k)] (the conflict target of
    the upsert), [.eq('email', e)], [.eq('user_id', k)] and [.eq('id', k)]. *)
Definition has_key (shopify_customer_id : string) (u : Users.row) : bool :=
  String.eqb (Users.shopify_customer_id u) shopify_customer_id.

Definition has_email (email : string) (u : Users.row) : bool :=
  match Users.email u with
  | VStr e => String.eqb e email
  | _ => false
  end.

Definition owned_by (user_id : Z) (w : Wallets.row) : bool :=
  Wallets.user_id w =? user_id.

Definition has_id (id : Z) (w : Wallets.row) : bool :=
  Wallets.id w =? id.

(** What the upsert does to a row with the key, and the row it inserts
    when there is none.  A field that is [undefined] is not sent: the
    column keeps its value, or is NULL in a new row. *)
Definition merge_user (shopify_customer_id : string) (email : value)
    (name : string) (u : Users.row) : Users.row :=
  if has_key shopify_customer_id u then
    {| Users.id := Users.id u;
       Users.shopify_customer_id := shopify_customer_id;
       Users.email :=
         match email with VUndefined => Users.email u | _ => email end;
       Users.name := name |}
  else u.

Definition new_user (id : Z) (shopify_customer_id : string) (email : value)
    (name : string) : Users.row :=
  {| Users.id := id;
     Users.shopify_customer_id := shopify_customer_id;
     Users.email := match email with VUndefined => VNull | _ => email end;
     Users.name := name |}.

(** [from('users').upsert({shopify_customer_id, email, name},
    {onConflict: 'shopify_customer_id'}).select().single()] *)
Definition users_upsert (shopify_customer_id : string) (email : value)
    (name : string) : M (reply Users.row) :=
  fun st =>
    if existsb (has_key shopify_customer_id) (users st) then
      let us := map (merge_user shopify_customer_id email name) (users st) in
      (Normal (single (filter (has_key shopify_customer_id) us)),
       set_users us st)
    else
      let u :=
        new_user (fresh_id (map Users.id (users st)))
          shopify_customer_id email name in
      (Normal (single [u]), set_users (users st ++ [u]) st).

(** [from('users').select('id, name, email').eq('email', email)] *)
Definition users_by_email (email : string) : M (list Users.row) :=
  fun st => (Normal (filter (has_email email) (users st)), st).

(** [from('wallets').select(...).eq('user_id', user_id)] *)
Definition wallets_by_user (user_id : Z) : M (list Wallets.row) :=
  fun st => (Normal (filter (owned_by user_id) (wallets st)), st).

(** Modelled from the spec: the schema of [wallets] is not in the
    repository.  "Creation initializes current and lifetime totals to
    zero": a row inserted with only [user_id] gets 0 in [points] and
    [lifetime_points]; [updated_at] is whatever the column defaults to
    ([None]). *)
Definition new_wallet (id user_id : Z) : Wallets.row :=
  {| Wallets.id := id; Wallets.user_id := user_id;
     Wallets.points := 0; Wallets.lifetime_points := 0;
     Wallets.updated_at := None |}.

(** [from('wallets').insert({ user_id }).select().single()] *)
Definition wallets_insert (user_id : Z) : M (reply Wallets.row) :=
  fun st =>
    let w := new_wallet (fresh_id (map Wallets.id (wallets st))) user_id in
    (Normal (single [w]), set_wallets (wallets st ++ [w]) st).

(** [from('wallet_transactions').insert({...})] *)
Definition wallet_transactions_insert (wallet_id : Z) (type source
    shopify_order_id : string) (points_change : number) (note : string)
    : M bool :=
  fun st =>
    match to_column points_change with
    | Some d =>
        let t :=
          {| WalletTransactions.wallet_id := wallet_id;
             WalletTransactions.type := type;
             WalletTransactions.source := source;
             WalletTransactions.shopify_order_id := shopify_order_id;
             WalletTransactions.points_change := d;
             WalletTransactions.note := note |} in
        (Normal false,
         set_wallet_transactions (wallet_transactions st ++ [t]) st)
    | None => (Normal true, st)
    end.

(** What the update does to a row. *)
Definition set_totals (id points lifetime_points : Z) (updated_at : string)
    (w : Wallets.row) : Wallets.row :=
  if has_id id w then
    {| Wallets.id := Wallets.id w; Wallets.user_id := Wallets.user_id w;
       Wallets.points := points; Wallets.lifetime_points := lifetime_points;
       Wallets.updated_at := Some updated_at |}
  else w.

(** [from('wallets').update({points, lifetime_points, updated_at})
    .eq('id', id)] *)
Definition wallets_update (points lifetime_points : number)
    (updated_at : string) (id : Z) : M bool :=
  fun st =>
    match to_column points, to_column lifetime_points with
    | Some p, Some l =>
        (Normal false,
         set_wallets (map (set_totals id p l updated_at) (wallets st)) st)
    | _, _ => (Normal true, st)
    end.

(** ** The handlers *)

Record request : Type :=
  { (** [req.get('X-Shopify-Hmac-Sha256')] *)
    X_Shopify_Hmac_Sha256 : option string;
    (** [req.body]: the raw bytes when body-parser read a JSON body,
        and not a Buffer otherwise *)
    body : option string }.

Record response : Type := { status : Z; content : value }.

Definition send (status : Z) (text : string) : response :=
  {| status := status; content := VStr text |}.

Definition json (status : Z) (fields : list (string * value)) : response :=
  {| status := status; content := VObj fields |}.

(** [o.key], for the keys the handlers read (none is a property of a
    string, an array or a prototype). *)
Definition get (o : value) (key : string) : M value :=
  match o with
  | VUndefined | VNull => throw "TypeError"
  | VObj fields => ret (lookup key fields)
  | _ => ret VUndefined
  end.

(** [row.column] on the [data] of a reply, which is [null] when the
    query failed. *)
Definition column {R A} (row : option R) (f : R -> A) : M A :=
  match row with
  | Some r => ret (f r)
  | None => throw "TypeError"
  end.

Section Handlers.

Local Open Scope js_scope.
Local Open Scope string_scope.

(** [Number.prototype.toString] *)
Variable Number_toString : number -> string.

(** [crypto.createHmac('sha256', key).update(data).digest('base64')] *)
Variable hmac_sha256_base64 : string -> string -> string.

(** [JSON.parse]; [None] is a SyntaxError. *)
Variable JSON_parse : string -> option value.

(** [process.env.SHOPIFY_WEBHOOK_SECRET] *)
Variable SHOPIFY_WEBHOOK_SECRET : option string.

(** [String(v)], and the conversion a template literal applies *)
Fixpoint ToString (v : value) : string :=
  match v with
  | VUndefined => "undefined"
  | VNull => "null"
  | VBool true => "true"
  | VBool false => "false"
  | VNum n => Number_toString n
  | VStr s => s
  | VArr items =>
      String.concat ","
        (map (fun x =>
                match x with
                | VUndefined | VNull => ""
                | _ => ToString x
                end) items)
  | VObj _ => "[object Object]"
  end.

(** Lines 144-154.  [createHmac] throws on a key that is not a string,
    [update] on data that is neither a string nor a Buffer. *)
Definition verifyHmac (req : request) : M bool :=
  let hmacHeader := X_Shopify_Hmac_Sha256 req in
  let secret := SHOPIFY_WEBHOOK_SECRET in
  match secret with
  | None => throw "TypeError [ERR_INVALID_ARG_TYPE]"
  | Some key =>
      match body req with
      | None => throw "TypeError [ERR_INVALID_ARG_TYPE]"
      | Some data =>
          let digest := hmac_sha256_base64 key data in
          ret (match hmacHeader with
               | Some h => String.eqb digest h
               | None => false
               end)
      end
  end.

(** Lines 157-159. *)
Definition getJson (req : request) : M value :=
  match JSON_parse (match body req with
                    | Some data => data
                    | None => "[object Object]"
                    end) with
  | Some v => ret v
  | None => throw "SyntaxError"
  end.

(** Lines 161-165. *)
Definition calcPoints (totalPrice : value) : number :=
  let amount := Number.or (parseFloat (ToString totalPrice)) (Finite 0) in
  let rate := Finite 3 in
  Number.floor (Number.mul amount rate).

(** Lines 36-38, the earlier definition. *)
Definition calcPoints_first (totalPrice : value) : number :=
  Number.floor (parseFloat (ToString totalPrice)).

(** Lines 206-219: find or create the wallet of a user. *)
Definition find_or_create_wallet (user_id : Z) : M (option Wallets.row) :=
  found <- wallets_by_user user_id ;;
  match data (single found) with
  | Some wallet => ret (Some wallet)
  | None =>
      newWallet <- wallets_insert user_id ;;
      ret (data newWallet)
  end.

(** Lines 221-239: the transaction record, then the balances. *)
Definition credit (wallet : option Wallets.row) (orderId : string)
    (points : number) (now : string) : M unit :=
  wallet_id <- column wallet Wallets.id ;;
  wallet_transactions_insert wallet_id "earn" "order" orderId points
    "Points from order" ;;
  wallet_points <- column wallet Wallets.points ;;
  wallet_lifetime_points <- column wallet Wallets.lifetime_points ;;
  wallets_update
    (Number.add (Number.of_Z wallet_points) points)
    (Number.add (Number.of_Z wallet_lifetime_points) points)
    now wallet_id ;;
  ret tt.

(** Lines 191-239: the account, its wallet, the transaction record and
    the balances. *)
Definition apply_award (shopifyCustomerId : string) (email : value)
    (name orderId : string) (points : number) (now : string) : M unit :=
  user <- users_upsert shopifyCustomerId email name ;;
  user_id <- column (data user) Users.id ;;
  wallet <- find_or_create_wallet user_id ;;
  credit wallet orderId points now.

(** Lines 167-247: [app.post('/shopify/orders-paid', ...)].  [now] is
    [new Date().toISOString()]. *)
Definition orders_paid (now : string) (req : request) : M response :=
  try_catch
    (authentic <- verifyHmac req ;;
     if negb authentic then ret (send 401 "Invalid HMAC")
     else
       order <- getJson req ;;
       customer <- get order "customer" ;;
       if negb (ToBoolean customer) then ret (send 200 "No customer")
       else
         customer_id <- get customer "id" ;;
         let shopifyCustomerId := ToString customer_id in
         email <- get customer "email" ;;
         first_name <- get customer "first_name" ;;
         last_name <- get customer "last_name" ;;
         let name :=
           trim (ToString (or_else first_name (VStr "")) ++ " "
                 ++ ToString (or_else last_name (VStr ""))) in
         totalPrice <- get order "total_price" ;;
         let points := calcPoints totalPrice in
         order_id <- get order "id" ;;
         let orderId := ToString order_id in
         apply_award shopifyCustomerId email name orderId points now ;;
         ret (send 200 "OK"))
    (fun _ => ret (send 500 "Server error")).

(** Lines 257-316: [app.get('/wallet/by-email', ...)].  [email] is
    [req.query.email], a string or absent. *)
Definition wallet_by_email (email : option string) : M response :=
  try_catch
    (match email with
     | None | Some "" =>
         ret (json 400 [("success", VBool false);
                        ("message", VStr "email is required")])
     | Some email =>
         matching <- users_by_email email ;;
         let user := maybeSingle matching in
         if error user then
           ret (json 500 [("success", VBool false);
                          ("message", VStr "User lookup failed")])
         else
           match data user with
           | None =>
               ret (json 200 [("success", VBool true);
                              ("email", VStr email);
                              ("name", VNull);
                              ("hasWallet", VBool false);
                              ("points", VNum (Finite 0));
                              ("lifetime_points", VNum (Finite 0))])
           | Some user =>
               owned <- wallets_by_user (Users.id user) ;;
               let wallet := maybeSingle owned in
               if error wallet then
                 ret (json 500 [("success", VBool false);
                                ("message", VStr "Wallet lookup failed")])
               else
                 ret (json 200
                   [("success", VBool true);
                    ("email", Users.email user);
                    ("name", VStr (Users.name user));
                    ("hasWallet",
                      VBool (match data wallet with
                             | Some _ => true
                             | None => false
                             end));
                    ("points",
                      VNum (match data wallet with
                            | Some w => Number.of_Z (Wallets.points w)
                            | None => Finite 0
                            end));
                    ("lifetime_points",
                      VNum (match data wallet with
                            | Some w => Number.of_Z (Wallets.lifetime_points w)
                            | None => Finite 0
                            end))])
           end
     end)
    (fun _ => ret (json 500 [("success", VBool false);
                             ("message", VStr "Unexpected error")])).

(** ** Deliveries: what a request carries *)

(** The signature header is the digest of the raw body under the
    configured secret. *)
Definition signature_verifies (req : request) : bool :=
  match SHOPIFY_WEBHOOK_SECRET, body req, X_Shopify_Hmac_Sha256 req with
  | Some key, Some data, Some h => String.eqb (hmac_sha256_base64 key data) h
  | _, _, _ => false
  end.

(** An authenticated delivery of the payload [order]: the signature
    verifies and the body parses to [order], a JSON value other than
    [null] (on which [order.customer] throws). *)
Definition delivers (req : request) (order : value) : Prop :=
  signature_verifies req = true
  /\ nullish order = false
  /\ exists data, body req = Some data /\ JSON_parse data = Some order.

(** What the handler reads from the payload. *)
Definition customer_of (order : value) : value := property order "customer".

Definition shopifyCustomerId_of (order : value) : string :=
  ToString (property (customer_of order) "id").

Definition email_of (order : value) : value :=
  property (customer_of order) "email".

Definition name_of (order : value) : string :=
  trim (ToString
          (or_else (property (customer_of order) "first_name") (VStr ""))
        ++ " "
        ++ ToString
             (or_else (property (customer_of order) "last_name") (VStr ""))).

Definition orderId_of (order : value) : string :=
  ToString (property order "id").

Definition points_of (order : value) : number :=
  calcPoints (property order "total_price").
End Handlers.

(** ** The store: keys, and what the queries read *)

(** The keys the tables have: row ids, one account per external customer
    id (the conflict target of the upsert), one wallet per account, owned
    by an account of the table.  The empty store has them and the handlers
    keep them. *)
Record store_ok (st : store) : Prop :=
  { users_id_unique : NoDup (map Users.id (users st));
    users_key_unique : NoDup (map Users.shopify_customer_id (users st));
    wallets_id_unique : NoDup (map Wallets.id (wallets st));
    wallets_user_unique : NoDup (map Wallets.user_id (wallets st));
    wallets_user_known :
      incl (map Wallets.user_id (wallets st)) (map Users.id (users st)) }.

(** The account of an external customer id. *)
Definition account (shopify_customer_id : string) (st : store)
    : option Users.row :=
  data (single (filter (has_key shopify_customer_id) (users st))).

(** The wallet of an account. *)
Definition wallet_of (user_id : Z) (st : store) : option Wallets.row :=
  data (single (filter (owned_by user_id) (wallets st))).

(** The balance of a customer: current and lifetime totals. *)
Definition balance (shopify_customer_id : string) (st : store)
    : option (Z * Z) :=
  match account shopify_customer_id st with
  | Some u =>
      match wallet_of (Users.id u) st with
      | Some w => Some (Wallets.points w, Wallets.lifetime_points w)
      | None => None
      end
  | None => None
  end.

(** The totals an award is added to: those of the wallet, or zero when
    the customer has none yet. *)
Definition totals (shopify_customer_id : string) (st : store) : Z * Z :=
  match balance shopify_customer_id st with
  | Some b => b
  | None => (0, 0)
  end.

(** The integers that are computed on without rounding. *)
Definition safe (z : Z) : Prop := Z.abs z < 2 ^ 53.

Definition empty_store : store :=
  {| users := []; wallets := []; wallet_transactions := [] |}.
(** The row an award of [d] points for an order leaves in
    [wallet_transactions]. *)
Definition earn (wallet_id : Z) (order_id : string) (d : Z)
    : WalletTransactions.row :=
  {| WalletTransactions.wallet_id := wallet_id;
     WalletTransactions.type := "earn";
     WalletTransactions.source := "order";
     WalletTransactions.shopify_order_id := order_id;
     WalletTransactions.points_change := d;
     WalletTransactions.note := "Points from order" |}.
(** ** Amounts written in decimal digits *)

Definition is_digit (c : ascii) : bool :=
  match digit_value c with
  | Some _ => true
  | None => false
  end.

Fixpoint all_digits (s : string) : bool :=
  match s with
  | EmptyString => true
  | String c r => is_digit c && all_digits r
  end.

(** The number a string of decimal digits writes, after [acc]. *)
Fixpoint numeral (s : string) (acc : Z) : Z :=
  match s with
  | EmptyString => acc
  | String c r => numeral r (10 * acc + (Z.of_N (N_of_ascii c) - 48))
  end.

(** A string that, after white space, does not start like a number. *)
Definition not_numeric (s : string) : bool :=
  match skip_white_space s with
  | EmptyString => true
  | String c _ =>
      negb (is_digit c || Ascii.eqb c "+" || Ascii.eqb c "-"
            || Ascii.eqb c "." || Ascii.eqb c "I")
  end.

(** What [calcPoints] computes from the value [x] of the literal it
    parsed: [Math.floor((round64 x || 0) * 3)]. *)
Definition award (x : Q) : number :=
  Number.floor (Number.mul (Number.or (round64 x) (Finite 0)) (Finite 3)).

(** ** A sample platform and sample payloads

    The theorems hold for every choice of the platform functions.  The
    examples at the end of the file run the handlers on this one: a
    stand-in for the keyed digest, and a [JSON.parse] that knows the five
    bodies below (the body is named after the order it carries). *)

Module Sample.

Local Open Scope string_scope.

(** The examples convert no finite number to a string. *)
Definition Number_toString (n : number) : string :=
  match n with
  | NaN => "NaN"
  | Infinity false => "Infinity"
  | Infinity true => "-Infinity"
  | Finite _ => "0"
  end.

Definition hmac_sha256_base64 (key data : string) : string :=
  key ++ "/" ++ data.

Definition secret : string := "whsec".

Definition customer : value :=
  VObj [("id", VStr "C1"); ("email", VStr "c1@example.com");
        ("first_name", VStr "Ann"); ("last_name", VStr "Lee")].

Definition order (id total_price : string) (customer : value) : value :=
  VObj [("id", VStr id); ("total_price", VStr total_price);
        ("customer", customer)].

Definition JSON_parse (text : string) : option value :=
  if String.eqb text "O1" then Some (order "O1" "10.00" customer)
  else if String.eqb text "O2" then Some (order "O2" "5.00" customer)
  else if String.eqb text "O3" then Some (order "O3" "-5.00" customer)
  else if String.eqb text "O4" then
    Some (VObj [("id", VStr "O4"); ("total_price", VStr "10.00")])
  else if String.eqb text "O5" then
    Some (order "O5" "10.00" (VObj [("email", VStr "x@example.com")]))
  else None.

(** A request with the signature of its body. *)
Definition signed (text : string) : request :=
  {| X_Shopify_Hmac_Sha256 := Some (hmac_sha256_base64 secret text);
     body := Some text |}.

(** A request with another signature. *)
Definition forged (text : string) : request :=
  {| X_Shopify_Hmac_Sha256 := Some "bogus"; body := Some text |}.

Definition handle : string -> request -> M response :=
  orders_paid Number_toString hmac_sha256_base64 JSON_parse (Some secret).

(** The handler of a process started without the secret. *)
Definition handle_without_secret : string -> request -> M response :=
  orders_paid Number_toString hmac_sha256_base64 JSON_parse None.

End Sample.

(** ** The Standard Library's IEEE-754 division, for comparison

    [SpecFloat.SFdiv 53 1024] is the binary64 quotient of two finite
    numbers; [samples] are quotients on which [round64] is compared with
    it: fractions, ties, subnormal numbers, underflow and overflow. *)

Module Ieee.

Definition of_spec_float (f : spec_float) : number :=
  match f with
  | S754_zero _ => Finite 0
  | S754_infinity s => Infinity s
  | S754_nan => NaN
  | S754_finite s m e =>
      Finite (Number.scale2 (if s then Z.neg m else Z.pos m) e)
  end.

Definition div (n d : positive) : number :=
  of_spec_float
    (SFdiv 53 1024 (S754_finite false n 0) (S754_finite false d 0)).

Definition same (x y : number) : bool :=
  match x, y with
  | Finite a, Finite b => Qeq_bool a b
  | Infinity s, Infinity t => Bool.eqb s t
  | NaN, NaN => true
  | _, _ => false
  end.

Definition samples : list (positive * positive) :=
  [(1, 10); (1, 3); (2, 3); (1000, 100); (35, 100); (105, 100);
   (999, 1000); (1, 10 ^ 330); (5, 10 ^ 324); (2, 10 ^ 324); (3, 10 ^ 324);
   (10 ^ 400, 1); (17976931348623157, 10 ^ 16); (2 ^ 53 + 1, 1);
   (2 ^ 54 + 2, 1); (2 ^ 54 + 6, 1); (2 ^ 1024 - 2 ^ 970, 1);
   (2 ^ 1024 - 2 ^ 970 - 1, 1); (22250738585072014, 10 ^ 324);
   (49406564584124654, 10 ^ 340); (24703282292062327, 10 ^ 340);
   (24703282292062328, 10 ^ 340); (123456789012345678, 1000);
   (9007199254740993, 3)]%positive.

End Ieee.

(** ** What the ledger keeps

    Definitions for the further properties of the handlers. *)

(** The points the transactions of a wallet add up to. *)
Definition earned (wallet_id : Z) (st : store) : Z :=
  fold_right Z.add 0
    (map WalletTransactions.points_change
       (filter (fun t => WalletTransactions.wallet_id t =? wallet_id)
          (wallet_transactions st))).

(** Every wallet holds what its transactions add up to, in both totals,
    and every transaction belongs to a wallet of the table. *)
Definition ledger_ok (st : store) : Prop :=
  (forall w, In w (wallets st) ->
             Wallets.points w = earned (Wallets.id w) st
             /\ Wallets.lifetime_points w = earned (Wallets.id w) st)
  /\ (forall t, In t (wallet_transactions st) ->
                In (WalletTransactions.wallet_id t)
                   (map Wallets.id (wallets st))).

(** One request adds at most one row to a table and removes none. *)
Definition at_most_one_more {A} (old new : list A) : Prop :=
  exists added, new = old ++ added /\ (List.length added <= 1)%nat.

(** The account of customer [k] after the upsert of lines 192-203: the
    row already there with the name and, if given, the email of the event,
    or a new row with a fresh id. *)
Definition upserted (k : string) (e : value) (n : string) (st : store)
    : Users.row :=
  match account k st with
  | Some u0 => merge_user k e n u0
  | None => new_user (fresh_id (map Users.id (users st))) k e n
  end.

(** ** Requests served one after the other *)

(** An event as the webhook receives it: the time of the update, the
    request, and what the request carries -- the payload and the point
    delta computed from it. *)
Record event : Type :=
  { at_time : string; request_of : request; payload : value; delta : Z }.

Section Serving.

Variable Number_toString : number -> string.
Variable hmac_sha256_base64 : string -> string -> string.
Variable JSON_parse : string -> option value.
Variable SHOPIFY_WEBHOOK_SECRET : option string.

(** The store after the handler has served the requests of the events,
    each to its end before the next. *)
Definition serve (events : list event) (st : store) : store :=
  fold_left
    (fun st ev =>
       snd (orders_paid Number_toString hmac_sha256_base64 JSON_parse
              SHOPIFY_WEBHOOK_SECRET (at_time ev) (request_of ev) st))
    events st.

(** The point deltas of the events of customer [k], added up, and their
    magnitudes added up. *)
Definition awarded (k : string) (events : list event) : Z :=
  fold_right Z.add 0
    (map delta
       (filter (fun ev =>
                  String.eqb (shopifyCustomerId_of Number_toString (payload ev))
                    k) events)).

Definition volume (k : string) (events : list event) : Z :=
  fold_right Z.add 0
    (map (fun ev => Z.abs (delta ev))
       (filter (fun ev =>
                  String.eqb (shopifyCustomerId_of Number_toString (payload ev))
                    k) events)).

End Serving.

(** ** Text around an amount *)

Fixpoint all_white_space (s : string) : bool :=
  match s with
  | EmptyString => true
  | String c r => is_white_space c && all_white_space r
  end.

(** Text that does not continue a decimal literal: it is empty, or
    starts with something other than a digit, a point or an exponent
    mark. *)
Definition plain_text (t : string) : bool :=
  match t with
  | EmptyString => true
  | String c _ =>
      negb (is_digit c || Ascii.eqb c "." || Ascii.eqb c "e"
            || Ascii.eqb c "E")
  end.

(** ** A second sample shop

    Two customers, an order without a total price and the body [null],
    on the platform of [Sample]. *)

Module Shop.

Local Open Scope string_scope.

Definition ann : value :=
  VObj [("id", VStr "C1"); ("email", VStr "c1@example.com");
        ("first_name", VStr "Ann"); ("last_name", VStr "Lee")].

(** A customer with a first name only. *)
Definition bob : value :=
  VObj [("id", VStr "C2"); ("email", VStr "bob@example.com");
        ("first_name", VStr "Bob")].

Definition A1 : value := Sample.order "A1" "12.50" ann.
Definition B1 : value := Sample.order "B1" "7.00" bob.
Definition A2 : value := Sample.order "A2" "1.00" ann.

(** An order without a total price. *)
Definition N1 : value := VObj [("id", VStr "N1"); ("customer", ann)].

Definition JSON_parse (text : string) : option value :=
  if String.eqb text "A1" then Some A1
  else if String.eqb text "B1" then Some B1
  else if String.eqb text "A2" then Some A2
  else if String.eqb text "N1" then Some N1
  else if String.eqb text "null" then Some VNull
  else None.

Definition handle : string -> request -> M response :=
  orders_paid Sample.Number_toString Sample.hmac_sha256_base64 JSON_parse
    (Some Sample.secret).

(** The store after order A1 at time t1. *)
Definition after_A1 : store :=
  snd (handle "t1" (Sample.signed "A1") empty_store).

(** Two accounts that share an email, and an account with two wallets. *)
Definition twins : store :=
  {| users :=
       [{| Users.id := 1; Users.shopify_customer_id := "C1";
           Users.email := VStr "t@example.com"; Users.name := "Tim" |};
        {| Users.id := 2; Users.shopify_customer_id := "C2";
           Users.email := VStr "t@example.com"; Users.name := "Tom" |};
        {| Users.id := 3; Users.shopify_customer_id := "C3";
           Users.email := VStr "u@example.com"; Users.name := "Uma" |}];
     wallets :=
       [{| Wallets.id := 1; Wallets.user_id := 3; Wallets.points := 5;
           Wallets.lifetime_points := 5; Wallets.updated_at := None |};
        {| Wallets.id := 2; Wallets.user_id := 3; Wallets.points := 0;
           Wallets.lifetime_points := 0; Wallets.updated_at := None |}];
     wallet_transactions := [] |}.

(** Three events: two of Ann, one of Bob between them. *)
Definition events : list event :=
  [{| at_time := "t1"; request_of := Sample.signed "A1"; payload := A1;
      delta := 37 |};
   {| at_time := "t2"; request_of := Sample.signed "B1"; payload := B1;
      delta := 21 |};
   {| at_time := "t3"; request_of := Sample.signed "A2"; payload := A2;
      delta := 3 |}].

End Shop.


(** ** Tactics for the examples *)

Ltac sample_delivery text :=
  split; [reflexivity|split; [reflexivity|exists text; split; reflexivity]].

Ltac is_safe := unfold safe; vm_compute; reflexivity.


(** * Facts about the number model *)

Module NumberFacts.

(** [round64] and the Standard Library's binary64 division agree on the
    samples. *)
Lemma round64_agrees_with_SpecFloat :
  forallb (fun '(n, d) => Ieee.same (Ieee.div n d) (round64 (Zpos n # d)))
    Ieee.samples = true.
Proof. vm_compute. reflexivity. Qed.

Lemma div_nearest_even_multiple (d k : Z) :
  0 < d -> div_nearest_even (d * k) d = k.
Proof.
  intros Hd. unfold div_nearest_even.
  rewrite (Z.mul_comm d k), Z.div_mul, Z.mod_mul by lia.
  change (2 * 0) with 0.
  destruct (Z.compare_spec 0 d); try lia; reflexivity.
Qed.

Lemma Qred_inject_Z (a : Z) : Qred (inject_Z a) = inject_Z a.
Proof.
  apply Qcanon.Qred_identity. simpl. apply Z.gcd_1_r.
Qed.

Lemma scale2_multiple (z s : Z) :
  0 < s -> scale2 (z * 2 ^ s) (- s) = inject_Z z.
Proof.
  intros Hs. unfold scale2.
  destruct (0 <=? - s) eqn:E; [apply Z.leb_le in E; lia|].
  rewrite Z.opp_involutive, <- Qred_inject_Z.
  apply Qred_complete. unfold Qeq, inject_Z; simpl.
  rewrite Z2Pos.id by (apply Z.pow_pos_nonneg; lia). lia.
Qed.

Lemma pow2_lt_exponent (a b : Z) : 0 <= b -> 2 ^ a < 2 ^ b -> a < b.
Proof. intros Hb H. apply (Z.pow_lt_mono_r_iff 2); lia. Qed.

Lemma ulp_exponent_of_integer (d z : Z) :
  0 < d -> 0 < z < 2 ^ 53 -> -1074 <= ulp_exponent (d * z) d <= 0.
Proof.
  intros Hd Hz. unfold ulp_exponent.
  assert (Hn : 0 < d * z) by nia.
  pose proof (Z.log2_spec _ Hn) as [Hl1 Hl2].
  pose proof (Z.log2_spec _ Hd) as [Hd1 Hd2].
  pose proof (Z.log2_nonneg (d * z)) as Hln.
  pose proof (Z.log2_nonneg d) as Hld.
  set (ln := Z.log2 (d * z)) in *. set (ld := Z.log2 d) in *.
  assert (Hp : 0 < 2 ^ ld) by (apply Z.pow_pos_nonneg; lia).
  assert (Hq : 0 < 2 ^ ln) by (apply Z.pow_pos_nonneg; lia).
  split; [lia|].
  apply Z.max_lub; [|lia].
  destruct (d * z * 2 ^ ld <? d * 2 ^ ln) eqn:E.
  - assert (ln < ld + 54); [|lia].
    apply pow2_lt_exponent; [lia|].
    replace (ld + 54) with (Z.succ ld + 53) by lia.
    rewrite Z.pow_add_r by lia. nia.
  - apply Z.ltb_ge in E.
    assert (ln < ld + 53); [|lia].
    apply pow2_lt_exponent; [lia|].
    rewrite Z.pow_add_r by lia.
    assert (2 ^ ln <= z * 2 ^ ld) by nia. nia.
Qed.

Lemma round_pos_integer (negative : bool) (d z : Z) :
  0 < d -> 0 < z < 2 ^ 53 ->
  round_pos negative (d * z) d
  = Finite (inject_Z (if negative then - z else z)).
Proof.
  intros Hd Hz. unfold round_pos.
  pose proof (ulp_exponent_of_integer d z Hd Hz) as He.
  set (e := ulp_exponent (d * z) d) in *.
  destruct (Z.eq_dec e 0) as [E0|E0].
  - rewrite E0. unfold significand, scale2.
    change (0 <=? 0) with true. cbv iota.
    rewrite Z.pow_0_r, !Z.mul_1_r, div_nearest_even_multiple by lia.
    destruct (2 ^ 1024 <=? z) eqn:E.
    + apply Z.leb_le in E.
      assert (2 ^ 53 < 2 ^ 1024) by (apply Z.pow_lt_mono_r; lia). lia.
    + simpl andb. cbv iota. reflexivity.
  - assert (Hs : 0 < - e) by lia.
    unfold significand.
    destruct (0 <=? e) eqn:E; [apply Z.leb_le in E; lia|].
    simpl andb. cbv iota.
    replace (d * z * 2 ^ (- e)) with (d * (z * 2 ^ (- e))) by ring.
    rewrite div_nearest_even_multiple by lia.
    f_equal.
    assert (Hx : forall x, scale2 (x * 2 ^ (- e)) e = inject_Z x).
    { intros x. replace e with (- (- e)) at 2 by lia.
      apply scale2_multiple; lia. }
    destruct negative; [rewrite <- Z.mul_opp_l|]; apply Hx.
Qed.

(** Every integer of magnitude below 2^53 is a binary64 value. *)
Lemma of_Z_exact (z : Z) :
  Z.abs z < 2 ^ 53 -> Number.of_Z z = Finite (inject_Z z).
Proof.
  intros Hz. unfold Number.of_Z, round64. simpl Qnum. simpl Qden.
  destruct z as [|p|p].
  - reflexivity.
  - replace (Z.pos p) with (1 * Z.pos p) at 1 by lia.
    change (Z.pos 1) with 1.
    rewrite round_pos_integer; [reflexivity|lia|lia].
  - replace (Z.pos p) with (1 * Z.pos p) at 1 by lia.
    change (Z.pos 1) with 1.
    rewrite round_pos_integer; [reflexivity|lia|lia].
Qed.

(** An integer sum of magnitude below 2^53 is computed exactly. *)
Lemma add_exact (a b : Z) :
  Z.abs (a + b) < 2 ^ 53 ->
  Number.add (Finite (inject_Z a)) (Finite (inject_Z b))
  = Finite (inject_Z (a + b)).
Proof.
  intros H. unfold Number.add.
  rewrite <- (of_Z_exact (a + b) H).
  unfold Number.of_Z, round64. simpl.
  rewrite !Z.mul_1_r. reflexivity.
Qed.

Lemma to_Z_integer (z : Z) : Number.to_Z (Finite (inject_Z z)) = Some z.
Proof.
  unfold Number.to_Z. rewrite Qfloor_Z.
  rewrite (proj2 (Qeq_bool_iff _ _)); reflexivity.
Qed.

Lemma div_nearest_even_error (N d : Z) :
  0 < d -> - d <= 2 * (div_nearest_even N d * d - N) <= d.
Proof.
  intros Hd. unfold div_nearest_even.
  pose proof (Z.div_mod N d ltac:(lia)) as E.
  pose proof (Z.mod_pos_bound N d Hd) as B.
  destruct (Z.compare_spec (2 * (N mod d)) d); [destruct (Z.even (N / d))| |]; nia.
Qed.

(** Below 2^52 and above 2^-1000 the unit in the last place is a negative
    power of two, it is not clamped, and the scaled value has 53 bits. *)
Lemma ulp_exponent_small (n d : Z) :
  0 < n -> 0 < d -> n < d * 2 ^ 52 -> d <= n * 2 ^ 1000 ->
  -1074 <= ulp_exponent n d < 0
  /\ d * 2 ^ 52 <= n * 2 ^ (- ulp_exponent n d).
Proof.
  intros Hn Hd Hhi Hlo. unfold ulp_exponent.
  pose proof (Z.log2_spec _ Hn) as [Hn1 Hn2].
  pose proof (Z.log2_spec _ Hd) as [Hd1 Hd2].
  pose proof (Z.log2_nonneg n) as Hln.
  pose proof (Z.log2_nonneg d) as Hld.
  set (ln := Z.log2 n) in *. set (ld := Z.log2 d) in *.
  assert (Hp : 0 < 2 ^ ld) by (apply Z.pow_pos_nonneg; lia).
  assert (Hq : 0 < 2 ^ ln) by (apply Z.pow_pos_nonneg; lia).
  rewrite Z.pow_succ_r in Hn2, Hd2 by lia.
  set (c := if n * 2 ^ ld <? d * 2 ^ ln then 1 else 0).
  assert (Hc : (c = 0 \/ c = 1) /\ d * 2 ^ ln <= n * 2 ^ (ld + c)
               /\ n * 2 ^ ld < d * 2 ^ (ln + 1 - c)).
  { unfold c. destruct (n * 2 ^ ld <? d * 2 ^ ln) eqn:E.
    - apply Z.ltb_lt in E. split; [now right|].
      rewrite Z.pow_add_r, Z.pow_1_r by lia.
      replace (ln + 1 - 1) with ln by lia. split; nia.
    - apply Z.ltb_ge in E. split; [now left|].
      rewrite Z.add_0_r, Z.sub_0_r, Z.pow_add_r, Z.pow_1_r by lia.
      split; nia. }
  destruct Hc as (Hc01 & Hc1 & Hc2).
  assert (Hpc : 0 < 2 ^ (ld + c)) by (apply Z.pow_pos_nonneg; lia).
  assert (Hpd : 0 < 2 ^ (ln + 1 - c)) by (apply Z.pow_pos_nonneg; lia).
  assert (Hup : ln < 52 + (ld + c)).
  { apply pow2_lt_exponent; [lia|].
    rewrite (Z.pow_add_r 2 52 (ld + c)) by lia. nia. }
  assert (Hdown : ld < 1000 + (ln + 1 - c)).
  { apply pow2_lt_exponent; [lia|].
    rewrite (Z.pow_add_r 2 1000 (ln + 1 - c)) by lia.
    assert (0 < 2 ^ 1000) by (apply Z.pow_pos_nonneg; lia). nia. }
  rewrite Z.max_l by lia.
  split; [lia|].
  apply (Z.mul_le_mono_pos_r _ _ (2 ^ ln) Hq).
  rewrite <- !Z.mul_assoc, <- !Z.pow_add_r by lia.
  replace (- (ln - ld - 52 - c) + ln) with (52 + (ld + c)) by lia.
  rewrite (Z.pow_add_r 2 52 (ld + c)), (Z.pow_add_r 2 52 ln) by lia. nia.
Qed.

Lemma round_pos_small (negative : bool) (n d : Z) :
  0 < n -> 0 < d -> n < d * 2 ^ 52 -> d <= n * 2 ^ 1000 ->
  exists r : Q,
    round_pos negative n d = Finite (if negative then - r else r)
    /\ (Qmake n (Z.to_pos d) * inject_Z (2 ^ 53 - 1) <= r * inject_Z (2 ^ 53))%Q
    /\ (r * inject_Z (2 ^ 53) <= Qmake n (Z.to_pos d) * inject_Z (2 ^ 53 + 1))%Q.
Proof.
  intros Hn Hd Hhi Hlo.
  destruct (ulp_exponent_small n d Hn Hd Hhi Hlo) as [He Hnorm].
  unfold round_pos, significand, scale2.
  set (e := ulp_exponent n d) in *.
  destruct (0 <=? e) eqn:E; [apply Z.leb_le in E; lia|]. simpl andb. cbv iota.
  set (m := div_nearest_even (n * 2 ^ (- e)) d).
  pose proof (div_nearest_even_error (n * 2 ^ (- e)) d Hd) as Herr.
  fold m in Herr.
  assert (HP : 0 < 2 ^ (- e)) by (apply Z.pow_pos_nonneg; lia).
  exists (Qred (Qmake m (Z.to_pos (2 ^ (- e))))).
  split.
  - f_equal. destruct negative; [|reflexivity].
    rewrite <- Qred_opp. reflexivity.
  - rewrite Qred_correct. unfold Qle, Qmult, inject_Z. simpl.
    rewrite !Pos.mul_1_r, !Z2Pos.id by lia.
    set (X := m * d) in *. set (Y := n * 2 ^ (- e)) in *.
    change (2 ^ 52) with 4503599627370496 in Hnorm.
    replace (n * 9007199254740991 * 2 ^ (- e)) with (Y * 9007199254740991)
      by (unfold Y; ring).
    replace (m * 9007199254740992 * d) with (X * 9007199254740992)
      by (unfold X; ring).
    replace (n * 9007199254740993 * 2 ^ (- e)) with (Y * 9007199254740993)
      by (unfold Y; ring).
    lia.
Qed.

Lemma round64_small (x : Q) :
  let n := Z.abs (Qnum x) in
  let d := Zpos (Qden x) in
  0 < n -> n < d * 2 ^ 52 -> d <= n * 2 ^ 1000 ->
  exists r : Q,
    round64 x = Finite (if Qnum x <? 0 then - r else r)
    /\ (Qmake n (Qden x) * inject_Z (2 ^ 53 - 1) <= r * inject_Z (2 ^ 53))%Q
    /\ (r * inject_Z (2 ^ 53) <= Qmake n (Qden x) * inject_Z (2 ^ 53 + 1))%Q.
Proof.
  destruct x as [a b]. unfold round64. cbv zeta. simpl Qnum. simpl Qden.
  destruct a as [|p|p]; intros Hn Hhi Hlo.
  - simpl in Hn. lia.
  - apply (round_pos_small false (Zpos p) (Zpos b)); assumption.
  - apply (round_pos_small true (Zpos p) (Zpos b)); assumption.
Qed.

Lemma round64_integer (x : Q) (z : Z) :
  (x == inject_Z z)%Q -> Z.abs z < 2 ^ 53 -> round64 x = Finite (inject_Z z).
Proof.
  destruct x as [a b]. unfold Qeq, round64. simpl. rewrite Z.mul_1_r.
  intros -> Hz. destruct z as [|p|p]; simpl.
  - reflexivity.
  - rewrite Pos.mul_comm, Pos2Z.inj_mul.
    apply (round_pos_integer false); lia.
  - rewrite Pos.mul_comm, Pos2Z.inj_mul.
    apply (round_pos_integer true (Zpos b) (Zpos p)); lia.
Qed.

Lemma Qfloor_unique (q : Q) (z : Z) :
  (inject_Z z <= q)%Q -> (q < inject_Z (z + 1))%Q -> Qfloor q = z.
Proof.
  intros H1 H2.
  pose proof (Qfloor_le q) as F1. pose proof (Qlt_floor q) as F2.
  assert (A : (inject_Z z < inject_Z (Qfloor q + 1))%Q)
    by (eapply Qle_lt_trans; eassumption).
  assert (B : (inject_Z (Qfloor q) < inject_Z (z + 1))%Q)
    by (eapply Qle_lt_trans; eassumption).
  rewrite <- Zlt_Qlt in A, B. lia.
Qed.

Lemma award_integer (x : Q) (z : Z) :
  (x == inject_Z z)%Q -> Z.abs z < 2 ^ 50 ->
  award x = Finite (inject_Z (3 * z)).
Proof.
  intros Hx Hz. unfold award.
  rewrite (round64_integer x z Hx)
    by (assert (2 ^ 50 < 2 ^ 53) by (apply Z.pow_lt_mono_r; lia); lia).
  unfold Number.or, Number.truthy. simpl Qnum.
  destruct (Z.eqb_spec z 0) as [->|Hnz]; simpl negb; cbv iota.
  - reflexivity.
  - unfold Number.mul.
    rewrite (round64_integer (inject_Z z * 3) (3 * z)).
    + unfold Number.floor. now rewrite Qfloor_Z.
    + unfold Qeq, Qmult, inject_Z. cbn [Qnum Qden]. lia.
    + change (2 ^ 50) with 1125899906842624 in Hz.
      change (2 ^ 53) with 9007199254740992. lia.
Qed.

Lemma award_inexact (negative : bool) (c D : Z) :
  0 < c < 2 ^ 50 -> 0 < D <= 10 ^ 300 -> (3 * c) mod D <> 0 ->
  award (Qmake (if negative then - c else c) (Z.to_pos D))
  = Finite (inject_Z ((3 * (if negative then - c else c)) / D)).
Proof.
  intros Hc HD Hb.
  set (m := if negative then - c else c).
  set (x := Qmake m (Z.to_pos D)).
  assert (Habs : Z.abs (Qnum x) = c) by (unfold x, m; simpl; destruct negative; lia).
  assert (Hden : Zpos (Qden x) = D) by (unfold x; simpl; apply Z2Pos.id; lia).
  assert (H1000 : 10 ^ 300 <= 2 ^ 1000) by (vm_compute; discriminate).
  assert (H50 : 2 ^ 50 = 1125899906842624) by reflexivity.
  destruct (round64_small x) as (r1 & Hr1 & B1lo & B1hi).
  { rewrite Habs. lia. }
  { rewrite Habs, Hden. change (2 ^ 52) with 4503599627370496. nia. }
  { rewrite Habs, Hden. nia. }
  rewrite Habs in B1lo, B1hi.
  set (X := Qmake c (Qden x)) in *.
  change (inject_Z (2 ^ 53 - 1)) with (9007199254740991 # 1)%Q in *.
  change (inject_Z (2 ^ 53)) with (9007199254740992 # 1)%Q in *.
  change (inject_Z (2 ^ 53 + 1)) with (9007199254740993 # 1)%Q in *.
  assert (FX0 : (0 < X)%Q) by (unfold X, Qlt; simpl; lia).
  assert (FX50 : (X < 1125899906842624 # 1)%Q).
  { unfold X, Qlt. cbn [Qnum Qden]. rewrite Hden. lia. }
  assert (FXlo : (1 <= X * inject_Z (2 ^ 1000))%Q).
  { unfold X, Qle, Qmult, inject_Z. cbn [Qnum Qden].
    rewrite Pos.mul_1_r, Hden. nia. }
  set (a := (3 * c) / D).
  pose proof (Z.div_mod (3 * c) D ltac:(lia)) as Hdm. fold a in Hdm.
  pose proof (Z.mod_pos_bound (3 * c) D ltac:(lia)) as Hbb.
  set (b := (3 * c) mod D) in *.
  assert (FA1 : (inject_Z a * (81129638414606681695789005144064 # 1)
                 < X * (243388915243819991044171486986243 # 1))%Q).
  { unfold X, Qlt, Qmult, inject_Z. cbn [Qnum Qden].
    rewrite !Pos.mul_1_r, Hden. rewrite H50 in Hc. nia. }
  assert (FA2 : (X * (243388915243820099130562543878147 # 1)
                 < (inject_Z a + 1) * (81129638414606681695789005144064 # 1))%Q).
  { unfold X, Qlt, Qmult, Qplus, inject_Z. cbn [Qnum Qden].
    rewrite !Pos.mul_1_r, Hden. rewrite H50 in Hc. nia. }
  clearbody X.
  assert (Hr1pos : (0 < r1)%Q) by lra.
  assert (Hsmall : (r1 * 3 < 4503599627370496 # 1)%Q) by lra.
  assert (Hbig : (1 <= r1 * 3 * inject_Z (2 ^ 1000))%Q).
  { let v := eval vm_compute in (2 ^ 1000) in
    change (2 ^ 1000) with v in FXlo |- *.
    unfold inject_Z in *. lra. }
  assert (Hsign : (Qnum x <? 0) = negative).
  { unfold x, m. cbn [Qnum]. destruct negative.
    - apply Z.ltb_lt. lia.
    - apply Z.ltb_ge. lia. }
  rewrite Hsign in Hr1.
  unfold award. rewrite Hr1.
  destruct r1 as [a1 b1].
  assert (Ha1 : 0 < a1) by (unfold Qlt in Hr1pos; simpl in Hr1pos; lia).
  set (q1 := if negative then (- (a1 # b1))%Q else (a1 # b1)%Q).
  assert (Hq1 : Qnum q1 = if negative then - a1 else a1)
    by (unfold q1; now destruct negative).
  assert (Hq1d : Qden q1 = b1) by (unfold q1; now destruct negative).
  unfold Number.or, Number.truthy.
  destruct (Z.eqb_spec (Qnum q1) 0) as [E|_];
    [rewrite Hq1 in E; destruct negative; lia|].
  simpl negb. cbv iota. unfold Number.mul.
  destruct (round64_small (q1 * 3)) as (r2 & Hr2 & B2lo & B2hi).
  { unfold Qmult. cbn [Qnum Qden]. rewrite Hq1. destruct negative; lia. }
  { unfold Qmult. cbn [Qnum Qden]. rewrite Hq1, Hq1d.
    unfold Qlt, Qmult in Hsmall. cbn [Qnum Qden] in Hsmall.
    change (2 ^ 52) with 4503599627370496. destruct negative; lia. }
  { unfold Qmult. cbn [Qnum Qden]. rewrite Hq1, Hq1d.
    unfold Qle, Qmult, inject_Z in Hbig. cbn [Qnum Qden] in Hbig.
    rewrite !Pos.mul_1_r in *. destruct negative; lia. }
  assert (Heq : Qmake (Z.abs (Qnum (q1 * 3))) (Qden (q1 * 3))
                = ((a1 # b1) * 3)%Q).
  { unfold Qmult. cbn [Qnum Qden]. rewrite Hq1, Hq1d. f_equal.
    destruct negative; lia. }
  rewrite Heq in B2lo, B2hi.
  assert (Hsign2 : (Qnum (q1 * 3) <? 0) = negative).
  { unfold Qmult. cbn [Qnum]. rewrite Hq1. destruct negative.
    - apply Z.ltb_lt. lia.
    - apply Z.ltb_ge. lia. }
  rewrite Hr2, Hsign2. unfold Number.floor. f_equal. f_equal.
  change (inject_Z (2 ^ 53 - 1)) with (9007199254740991 # 1)%Q in *.
  change (inject_Z (2 ^ 53)) with (9007199254740992 # 1)%Q in *.
  change (inject_Z (2 ^ 53 + 1)) with (9007199254740993 # 1)%Q in *.
  assert (Hlo : (inject_Z a < r2)%Q) by lra.
  assert (Hhi : (r2 < inject_Z a + 1)%Q) by lra.
  destruct negative; unfold m.
  - assert (Hdiv : 3 * - c / D = - a - 1).
    { symmetry. apply (Z.div_unique _ _ _ (D - b)); lia. }
    rewrite Hdiv. apply Qfloor_unique.
    + assert (E : (inject_Z (- a - 1) == - inject_Z a - 1)%Q)
        by (unfold Qeq, Qminus, Qplus, Qopp, inject_Z; cbn; lia).
      rewrite E. lra.
    + assert (E : (inject_Z (- a - 1 + 1) == - inject_Z a)%Q)
        by (unfold Qeq, Qopp, inject_Z; cbn; lia).
      rewrite E. lra.
  - fold a. apply Qfloor_unique.
    + lra.
    + rewrite inject_Z_plus. exact Hhi.
Qed.


Lemma three_times_divisible (c k : Z) :
  0 <= k -> (3 * c) mod 10 ^ k = 0 -> c mod 10 ^ k = 0.
Proof.
  intros Hk H.
  assert (Hpos : 0 < 10 ^ k) by (apply Z.pow_pos_nonneg; lia).
  apply Z.mod_divide in H; [|lia].
  apply Z.mod_divide; [lia|].
  apply (Z.gauss _ 3); [exact H|].
  rewrite Z.gcd_comm. apply Z.coprime_pow_r; [exact Hk|reflexivity].
Qed.

Lemma award_decimal (negative : bool) (c k : Z) :
  0 <= c < 2 ^ 50 -> 0 <= k <= 300 ->
  award (decimal_value (if negative then - c else c) (- k))
  = Finite (inject_Z ((3 * (if negative then - c else c)) / 10 ^ k)).
Proof.
  intros Hc Hk.
  set (m := if negative then - c else c).
  assert (Hpos : 0 < 10 ^ k) by (apply Z.pow_pos_nonneg; lia).
  assert (Hval : (decimal_value m (- k) == Qmake m (Z.to_pos (10 ^ k)))%Q).
  { unfold decimal_value. destruct (0 <=? - k) eqn:E.
    - apply Z.leb_le in E. replace k with 0 by lia. simpl.
      unfold Qeq. simpl. lia.
    - now rewrite Z.opp_involutive. }
  destruct (Z.eq_dec (c mod 10 ^ k) 0) as [Hz|Hnz].
  - apply Z.mod_divide in Hz; [|lia]. destruct Hz as [z Hz].
    set (z' := if negative then - z else z).
    assert (Hm : m = z' * 10 ^ k) by (unfold m, z'; destruct negative; lia).
    rewrite (award_integer _ z').
    + rewrite Hm, Z.mul_assoc, Z.div_mul by lia. reflexivity.
    + rewrite Hval. unfold Qeq. simpl. rewrite Z2Pos.id by lia. lia.
    + assert (Z.abs z' <= c) by (unfold z'; destruct negative; nia). lia.
  - assert (Hk0 : 0 < k).
    { destruct (Z.eq_dec k 0) as [->|]; [|lia].
      exfalso. apply Hnz. simpl. apply Z.mod_1_r. }
    unfold decimal_value. destruct (0 <=? - k) eqn:E;
      [apply Z.leb_le in E; lia|].
    rewrite Z.opp_involutive. apply award_inexact.
    + destruct (Z.eq_dec c 0) as [->|]; [|lia].
      exfalso. apply Hnz. apply Z.mod_0_l. lia.
    + split; [exact Hpos|]. apply Z.pow_le_mono_r; lia.
    + intros H. apply Hnz. now apply three_times_divisible.
Qed.

End NumberFacts.

(** * Facts about parseFloat *)

Module ParseFacts.

Local Open Scope string_scope.

Lemma digits_numeral (s t : string) (acc n : Z) :
  all_digits s = true ->
  match t with
  | String c _ => is_digit c = false
  | EmptyString => True
  end ->
  digits (s ++ t) acc n = (numeral s acc, n + Z.of_nat (String.length s), t).
Proof.
  revert acc n. induction s as [|c r IH]; intros acc n Hs Ht.
  - simpl. rewrite Z.add_0_r. destruct t as [|c r]; [reflexivity|].
    simpl. unfold is_digit in Ht. destruct (digit_value c); [discriminate|].
    reflexivity.
  - simpl in Hs. apply andb_true_iff in Hs as [Hc Hr].
    cbn [append digits numeral String.length].
    unfold is_digit, digit_value in Hc. unfold digit_value.
    destruct ((48 <=? N_of_ascii c)%N && (N_of_ascii c <=? 57)%N);
      [|discriminate].
    rewrite (IH _ _ Hr Ht). f_equal. f_equal. lia.
Qed.

Lemma append_empty (s : string) : s ++ "" = s.
Proof. induction s; simpl; congruence. Qed.

Lemma numeral_app (s t : string) (acc : Z) :
  numeral (s ++ t) acc = numeral t (numeral s acc).
Proof. revert acc. induction s; intros acc; simpl; auto. Qed.

Lemma digit_head (c : ascii) (r : string) :
  is_digit c = true ->
  skip_white_space (String c r) = String c r
  /\ String.prefix "Infinity" (String c r) = false
  /\ match String c r with
     | String "-"%char t => (true, t)
     | String "+"%char t => (false, t)
     | _ => (false, String c r)
     end = (false, String c r).
Proof.
  destruct c as [[] [] [] [] [] [] [] []]; try discriminate;
    intros _; repeat split; reflexivity.
Qed.

Lemma unsigned_literal_decimal (ip fp s : string) :
  all_digits ip = true -> all_digits fp = true -> ip <> "" ->
  s = ip ++ "." ++ fp \/ fp = "" /\ s = ip ->
  unsigned_literal s
  = Some (LitDecimal (numeral (ip ++ fp) 0) (- Z.of_nat (String.length fp))).
Proof.
  intros Hip Hfp Hne Hs.
  destruct ip as [|c0 r0]; [contradiction|].
  assert (Hc0 : is_digit c0 = true)
    by (simpl in Hip; now apply andb_true_iff in Hip as [? _]).
  assert (Hlen : (0 + Z.of_nat (String.length (String c0 r0)) =? 0)%Z = false)
    by (apply Z.eqb_neq; simpl String.length; lia).
  unfold unsigned_literal.
  destruct Hs as [->|[-> ->]].
  - destruct (digit_head c0 (r0 ++ "." ++ fp) Hc0) as (_ & Hpre & _).
    change (String c0 r0 ++ "." ++ fp) with (String c0 (r0 ++ "." ++ fp)).
    rewrite Hpre.
    change (String c0 (r0 ++ "." ++ fp)) with (String c0 r0 ++ String "." fp).
    rewrite (digits_numeral (String c0 r0) (String "." fp) 0 0 Hip)
      by reflexivity.
    rewrite <- (append_empty fp) at 1.
    rewrite (digits_numeral fp "" _ 0 Hfp I).
    rewrite Hlen. simpl andb. cbv iota.
    rewrite numeral_app. reflexivity.
  - destruct (digit_head c0 r0 Hc0) as (_ & Hpre & _).
    rewrite Hpre.
    rewrite <- (append_empty (String c0 r0)) at 1.
    rewrite (digits_numeral (String c0 r0) "" 0 0 Hip I).
    rewrite Hlen. simpl andb. cbv iota.
    rewrite append_empty. reflexivity.
Qed.

Lemma parseFloat_decimal (negative : bool) (ip fp s : string) :
  all_digits ip = true -> all_digits fp = true -> ip <> "" ->
  s = ip ++ "." ++ fp \/ fp = "" /\ s = ip ->
  parseFloat ((if negative then "-" else "") ++ s)
  = round64
      (decimal_value
         (if negative then - numeral (ip ++ fp) 0 else numeral (ip ++ fp) 0)
         (- Z.of_nat (String.length fp))).
Proof.
  intros Hip Hfp Hne Hs.
  pose proof (unsigned_literal_decimal ip fp s Hip Hfp Hne Hs) as Hlit.
  unfold parseFloat. destruct negative.
  - change ("-" ++ s) with (String "-" s).
    change (skip_white_space (String "-" s)) with (String "-" s).
    cbv iota beta. rewrite Hlit. reflexivity.
  - change ("" ++ s) with s.
    assert (Hhead : exists c r, s = String c r /\ is_digit c = true).
    { destruct ip as [|c0 r0]; [contradiction|].
      simpl in Hip. apply andb_true_iff in Hip as [Hc0 _].
      destruct Hs as [->|[_ ->]].
      - exists c0, (r0 ++ "." ++ fp). now split.
      - exists c0, r0. now split. }
    destruct Hhead as (c & r & -> & Hc).
    destruct (digit_head c r Hc) as (Hws & _ & Hsign).
    rewrite Hws, Hsign, Hlit. reflexivity.
Qed.

Lemma parseFloat_not_numeric (s : string) :
  not_numeric s = true -> parseFloat s = NaN.
Proof.
  unfold not_numeric, parseFloat.
  destruct (skip_white_space s) as [|c r]; [reflexivity|].
  destruct c as [[] [] [] [] [] [] [] []]; try discriminate;
    intros _; reflexivity.
Qed.

End ParseFacts.

(** * Facts about the rows a filter selects *)

Module StoreFacts.

Lemma filter_map_preserved {A} (p : A -> bool) (g : A -> A) (l : list A) :
  (forall x, p (g x) = p x) -> filter p (map g l) = map g (filter p l).
Proof.
  intros Hp. induction l as [|a l IH]; simpl; [reflexivity|].
  rewrite Hp. destruct (p a); simpl; now rewrite IH.
Qed.

Lemma filter_none {A} (p : A -> bool) (l : list A) :
  (forall x, In x l -> p x = false) -> filter p l = [].
Proof.
  intros H. destruct (filter p l) as [|y r] eqn:E; [reflexivity|].
  assert (Hy : In y (filter p l)) by (rewrite E; now left).
  apply filter_In in Hy as [Hy1 Hy2]. rewrite (H y Hy1) in Hy2. discriminate.
Qed.

(** A predicate that fixes a unique key selects at most one row. *)
Lemma filter_unique {A B} (key : A -> B) (p : A -> bool) (l : list A) :
  NoDup (map key l) ->
  (forall x y, p x = true -> p y = true -> key x = key y) ->
  filter p l = [] \/ exists x, filter p l = [x].
Proof.
  intros Hnd Hp. induction l as [|a l IH]; simpl; [now left|].
  inversion Hnd as [|? ? Hin Hnd']; subst.
  destruct (p a) eqn:Ea.
  - right. exists a. f_equal. apply filter_none.
    intros x Hx. destruct (p x) eqn:Ex; [|reflexivity].
    exfalso. apply Hin. rewrite (Hp a x Ea Ex). now apply in_map.
  - now apply IH.
Qed.

Lemma existsb_filter {A} (p : A -> bool) (l : list A) :
  existsb p l = false <-> filter p l = [].
Proof.
  induction l as [|a l IH]; simpl; [tauto|].
  destruct (p a); simpl; [split; discriminate|exact IH].
Qed.

Lemma fold_max_upper (ids : list Z) (x : Z) :
  In x ids -> x <= fold_right Z.max 0 ids.
Proof.
  induction ids as [|a ids IH]; simpl; [tauto|].
  intros [->|H]; [lia|]. specialize (IH H). lia.
Qed.

Lemma fresh_id_new (ids : list Z) : ~ In (fresh_id ids) ids.
Proof.
  intros H. apply fold_max_upper in H. unfold fresh_id in H. lia.
Qed.

Lemma NoDup_app_one {A} (l : list A) (a : A) :
  NoDup l -> ~ In a l -> NoDup (l ++ [a]).
Proof.
  intros Hl Ha. apply NoDup_app; [exact Hl|repeat constructor; auto|].
  intros x Hx [->|[]]. contradiction.
Qed.

Lemma has_key_same (k : string) (x y : Users.row) :
  has_key k x = true -> has_key k y = true ->
  Users.shopify_customer_id x = Users.shopify_customer_id y.
Proof.
  unfold has_key. intros Hx Hy.
  apply String.eqb_eq in Hx, Hy. congruence.
Qed.

Lemma owned_by_same (k : Z) (x y : Wallets.row) :
  owned_by k x = true -> owned_by k y = true ->
  Wallets.user_id x = Wallets.user_id y.
Proof. unfold owned_by. intros Hx Hy. lia. Qed.

Lemma empty_store_ok : store_ok empty_store.
Proof. split; simpl; try constructor; intros x []. Qed.

End StoreFacts.

(** * The steps of the ledger update *)

Module LedgerFacts.
Import StoreFacts.

Lemma merge_user_key k e n u :
  Users.shopify_customer_id (merge_user k e n u) = Users.shopify_customer_id u.
Proof.
  unfold merge_user. destruct (has_key k u) eqn:E; [|reflexivity].
  simpl. symmetry. now apply String.eqb_eq.
Qed.

Lemma merge_user_id k e n u : Users.id (merge_user k e n u) = Users.id u.
Proof. unfold merge_user. now destruct (has_key k u). Qed.

Lemma merge_user_has_key k k' e n u :
  has_key k' (merge_user k e n u) = has_key k' u.
Proof. unfold has_key. now rewrite merge_user_key. Qed.

Lemma merge_user_other k k' e n u :
  k' <> k -> has_key k' u = true -> merge_user k e n u = u.
Proof.
  intros Hk H. unfold merge_user. destruct (has_key k u) eqn:E; [|reflexivity].
  unfold has_key in *. apply String.eqb_eq in H, E. congruence.
Qed.

Lemma merge_user_filter_other k k' e n l :
  k' <> k ->
  map (merge_user k e n) (filter (has_key k') l) = filter (has_key k') l.
Proof.
  intros Hk. induction l as [|a l IH]; simpl; [reflexivity|].
  destruct (has_key k' a) eqn:Ek; simpl; [|exact IH].
  rewrite IH. f_equal. now apply merge_user_other with k'.
Qed.

Lemma account_cases k st :
  store_ok st ->
  (filter (has_key k) (users st) = [] /\ account k st = None)
  \/ exists u, filter (has_key k) (users st) = [u] /\ account k st = Some u.
Proof.
  intros Hok. unfold account.
  destruct (filter_unique Users.shopify_customer_id (has_key k) (users st)
              (users_key_unique _ Hok) (has_key_same k)) as [E|[u E]];
    rewrite E; [left|right; exists u]; auto.
Qed.

Lemma wallet_of_cases k st :
  store_ok st ->
  (filter (owned_by k) (wallets st) = [] /\ wallet_of k st = None)
  \/ exists w, filter (owned_by k) (wallets st) = [w] /\ wallet_of k st = Some w.
Proof.
  intros Hok. unfold wallet_of.
  destruct (filter_unique Wallets.user_id (owned_by k) (wallets st)
              (wallets_user_unique _ Hok) (owned_by_same k)) as [E|[w E]];
    rewrite E; [left|right; exists w]; auto.
Qed.

Lemma filter_singleton_In {A} (p : A -> bool) l x :
  filter p l = [x] -> In x l /\ p x = true.
Proof.
  intros E. apply filter_In. rewrite E. now left.
Qed.

(** Identity resolution (lines 192-203). *)
Lemma users_upsert_spec k e n st :
  store_ok st ->
  exists u st1,
    users_upsert k e n st = (Normal {| data := Some u; error := false |}, st1)
    /\ store_ok st1
    /\ wallets st1 = wallets st
    /\ wallet_transactions st1 = wallet_transactions st
    /\ account k st1 = Some u
    /\ Users.shopify_customer_id u = k
    /\ In (Users.id u) (map Users.id (users st1))
    /\ match account k st with
       | Some u0 => Users.id u = Users.id u0
       | None => ~ In (Users.id u) (map Users.id (users st))
       end
    /\ (forall k', k' <> k -> account k' st1 = account k' st).
Proof.
  intros Hok. unfold users_upsert.
  destruct (account_cases k st Hok) as [[E Ea]|[u0 [E Ea]]]; rewrite Ea.
  - rewrite (proj2 (existsb_filter _ _) E).
    set (u := new_user _ k e n).
    exists u, (set_users (users st ++ [u]) st).
    assert (Hfresh : ~ In (Users.id u) (map Users.id (users st)))
      by apply fresh_id_new.
    assert (Hnew : ~ In k (map Users.shopify_customer_id (users st))).
    { intros Hin. apply in_map_iff in Hin as [x [Hx Hin]].
      assert (Hf : In x (filter (has_key k) (users st))).
      { apply filter_In. split; [exact Hin|].
        unfold has_key. rewrite Hx. apply String.eqb_refl. }
      rewrite E in Hf. destruct Hf. }
    repeat split; simpl; auto.
    + rewrite map_app. apply NoDup_app_one; [apply Hok|exact Hfresh].
    + rewrite map_app. apply NoDup_app_one; [apply Hok|exact Hnew].
    + apply Hok.
    + apply Hok.
    + rewrite map_app. apply incl_appl. apply Hok.
    + unfold account. simpl. rewrite filter_app, E. simpl.
      unfold has_key. simpl. now rewrite String.eqb_refl.
    + rewrite map_app. apply in_or_app. right. now left.
    + intros k' Hk. unfold account. simpl. rewrite filter_app. simpl.
      unfold has_key at 2. simpl.
      destruct (String.eqb_spec k k') as [->|_]; [contradiction|].
      now rewrite app_nil_r.
  - destruct (existsb (has_key k) (users st)) eqn:Ex;
      [|apply existsb_filter in Ex; congruence].
    assert (Hf : forall k',
      filter (has_key k') (map (merge_user k e n) (users st))
      = map (merge_user k e n) (filter (has_key k') (users st))).
    { intros k'. apply filter_map_preserved.
      intros x. apply merge_user_has_key. }
    assert (Hids : map Users.id (map (merge_user k e n) (users st))
                   = map Users.id (users st)).
    { rewrite map_map. apply map_ext. intros x. apply merge_user_id. }
    assert (Hkeys :
      map Users.shopify_customer_id (map (merge_user k e n) (users st))
      = map Users.shopify_customer_id (users st)).
    { rewrite map_map. apply map_ext. intros x. apply merge_user_key. }
    destruct (filter_singleton_In _ _ _ E) as [Hin Hk0].
    exists (merge_user k e n u0),
      (set_users (map (merge_user k e n) (users st)) st).
    rewrite Hf, E. simpl.
    repeat split; simpl; auto.
    + rewrite Hids. apply Hok.
    + rewrite Hkeys. apply Hok.
    + apply Hok.
    + apply Hok.
    + rewrite Hids. apply Hok.
    + unfold account. simpl. now rewrite Hf, E.
    + rewrite merge_user_key. now apply String.eqb_eq.
    + rewrite Hids, merge_user_id. now apply in_map.
    + apply merge_user_id.
    + intros k' Hk. unfold account. simpl. rewrite Hf.
      f_equal. f_equal. now apply merge_user_filter_other.
Qed.

Lemma bind_normal {A B} (m : M A) (k : A -> M B) st a st1 :
  m st = (Normal a, st1) -> bind m k st = k a st1.
Proof. intros H. unfold bind. now rewrite H. Qed.

Lemma bind_ret_l {A B} (a : A) (k : A -> M B) : bind (ret a) k = k a.
Proof. reflexivity. Qed.

Lemma set_totals_id i p l t w :
  Wallets.id (set_totals i p l t w) = Wallets.id w.
Proof. unfold set_totals. now destruct (has_id i w). Qed.

Lemma set_totals_user_id i p l t w :
  Wallets.user_id (set_totals i p l t w) = Wallets.user_id w.
Proof. unfold set_totals. now destruct (has_id i w). Qed.

Lemma set_totals_owned_by i p l t k w :
  owned_by k (set_totals i p l t w) = owned_by k w.
Proof. unfold owned_by. now rewrite set_totals_user_id. Qed.

Lemma store_ok_set_totals i p l t st :
  store_ok st ->
  store_ok (set_wallets (map (set_totals i p l t) (wallets st)) st).
Proof.
  intros Hok.
  assert (Hids : map Wallets.id (map (set_totals i p l t) (wallets st))
                 = map Wallets.id (wallets st)).
  { rewrite map_map. apply map_ext. intros x. apply set_totals_id. }
  assert (Hus : map Wallets.user_id (map (set_totals i p l t) (wallets st))
                = map Wallets.user_id (wallets st)).
  { rewrite map_map. apply map_ext. intros x. apply set_totals_user_id. }
  split; simpl; try rewrite Hids; try rewrite Hus; apply Hok.
Qed.

Lemma store_ok_set_wallet_transactions ts st :
  store_ok st -> store_ok (set_wallet_transactions ts st).
Proof. intros Hok. split; simpl; apply Hok. Qed.

(** Balance resolution (lines 206-219). *)
Lemma find_or_create_wallet_spec uid st :
  store_ok st ->
  In uid (map Users.id (users st)) ->
  exists w st2,
    find_or_create_wallet uid st = (Normal (Some w), st2)
    /\ store_ok st2
    /\ users st2 = users st
    /\ wallet_transactions st2 = wallet_transactions st
    /\ filter (owned_by uid) (wallets st2) = [w]
    /\ match wallet_of uid st with
       | Some w0 => w = w0 /\ wallets st2 = wallets st
       | None =>
           w = new_wallet (fresh_id (map Wallets.id (wallets st))) uid
           /\ wallets st2 = wallets st ++ [w]
           /\ filter (owned_by uid) (wallets st) = []
       end.
Proof.
  intros Hok Hin. unfold find_or_create_wallet, wallets_by_user.
  unfold bind at 1.
  destruct (wallet_of_cases uid st Hok) as [[E Ew]|[w0 [E Ew]]].
  - set (w := new_wallet (fresh_id (map Wallets.id (wallets st))) uid).
    exists w, (set_wallets (wallets st ++ [w]) st).
    rewrite Ew, E. simpl.
    repeat split; simpl; auto; try apply Hok.
    + rewrite map_app. apply NoDup_app_one; [apply Hok|apply fresh_id_new].
    + rewrite map_app. apply NoDup_app_one; [apply Hok|]. simpl.
      intros Hu. apply in_map_iff in Hu as [x [Hx Hu]].
      assert (Hf : In x (filter (owned_by uid) (wallets st))).
      { apply filter_In. split; [exact Hu|]. unfold owned_by. lia. }
      rewrite E in Hf. destruct Hf.
    + rewrite map_app. apply incl_app; [apply Hok|].
      intros x [<-|[]]. exact Hin.
    + rewrite filter_app, E. simpl. unfold owned_by. simpl.
      now rewrite Z.eqb_refl.
  - exists w0, st. rewrite Ew, E. simpl. unfold ret.
    repeat split; auto; apply Hok.
Qed.

(** Transaction append and balance update (lines 221-239). *)
Lemma credit_spec w o pts now st :
  store_ok st ->
  exists st3,
    credit (Some w) o pts now st = (Normal tt, st3)
    /\ store_ok st3
    /\ users st3 = users st
    /\ (wallets st3 = wallets st
        \/ exists p l,
             wallets st3 = map (set_totals (Wallets.id w) p l now) (wallets st))
    /\ (forall d,
          pts = Finite (inject_Z d) ->
          safe (Wallets.points w) -> safe (Wallets.lifetime_points w) ->
          safe (Wallets.points w + d) ->
          safe (Wallets.lifetime_points w + d) ->
          wallets st3
          = map (set_totals (Wallets.id w) (Wallets.points w + d)
                   (Wallets.lifetime_points w + d) now) (wallets st)
          /\ wallet_transactions st3
             = wallet_transactions st
               ++ [{| WalletTransactions.wallet_id := Wallets.id w;
                      WalletTransactions.type := "earn";
                      WalletTransactions.source := "order";
                      WalletTransactions.shopify_order_id := o;
                      WalletTransactions.points_change := d;
                      WalletTransactions.note := "Points from order" |}]).
Proof.
  intros Hok.
  unfold credit, column, bind, ret, wallet_transactions_insert, wallets_update.
  destruct (to_column pts) as [d0|] eqn:Ed;
    destruct (to_column (Number.add (Number.of_Z (Wallets.points w)) pts))
      as [p|] eqn:Ep;
    destruct (to_column
                (Number.add (Number.of_Z (Wallets.lifetime_points w)) pts))
      as [l|] eqn:El;
    eexists; (split; [reflexivity|]);
    (split; [auto using store_ok_set_totals, store_ok_set_wallet_transactions|]);
    (split; [reflexivity|]);
    (split; [first [now left | right; eexists; eexists; reflexivity]|]);
    intros d -> Hp Hl Hpd Hld;
    unfold to_column in *;
    rewrite NumberFacts.to_Z_integer in Ed;
    rewrite (NumberFacts.of_Z_exact _ Hp), (NumberFacts.add_exact _ _ Hpd),
      NumberFacts.to_Z_integer in Ep;
    rewrite (NumberFacts.of_Z_exact _ Hl), (NumberFacts.add_exact _ _ Hld),
      NumberFacts.to_Z_integer in El;
    try discriminate.
  injection Ed as <-. injection Ep as <-. injection El as <-.
  simpl. split; reflexivity.
Qed.

Lemma wallet_of_congr uid st st' :
  wallets st' = wallets st -> wallet_of uid st' = wallet_of uid st.
Proof. intros H. unfold wallet_of. now rewrite H. Qed.

Lemma account_congr k st st' :
  users st' = users st -> account k st' = account k st.
Proof. intros H. unfold account. now rewrite H. Qed.

(** The four steps together (lines 191-239), on a store with its keys:
    the award never throws; [u] is the account, [w] the wallet the award
    is added to (as it was read, before the update) and [ws] the wallets
    after the wallet was found or created. *)
Lemma apply_award_spec k e n o pts now st :
  store_ok st ->
  exists u w ws st',
    apply_award k e n o pts now st = (Normal tt, st')
    /\ store_ok st'
    /\ account k st' = Some u
    /\ Users.shopify_customer_id u = k
    /\ match account k st with
       | Some u0 => Users.id u = Users.id u0
       | None => ~ In (Users.id u) (map Users.id (users st))
       end
    /\ (forall k', k' <> k -> account k' st' = account k' st)
    /\ (Wallets.points w, Wallets.lifetime_points w) = totals k st
    /\ (ws = wallets st /\ In w (wallets st)
        \/ ws = wallets st ++ [w]
           /\ w = new_wallet (fresh_id (map Wallets.id (wallets st)))
                    (Users.id u)
           /\ filter (owned_by (Users.id u)) (wallets st) = [])
    /\ NoDup (map Wallets.id ws)
    /\ filter (owned_by (Users.id u)) ws = [w]
    /\ (wallets st' = ws
        \/ exists p l,
             wallets st' = map (set_totals (Wallets.id w) p l now) ws)
    /\ (forall d,
          pts = Finite (inject_Z d) ->
          safe (Wallets.points w) -> safe (Wallets.lifetime_points w) ->
          safe (Wallets.points w + d) ->
          safe (Wallets.lifetime_points w + d) ->
          wallets st'
          = map (set_totals (Wallets.id w) (Wallets.points w + d)
                   (Wallets.lifetime_points w + d) now) ws
          /\ wallet_transactions st'
             = wallet_transactions st ++ [earn (Wallets.id w) o d]
          /\ balance k st'
             = Some (Wallets.points w + d, Wallets.lifetime_points w + d)).
Proof.
  intros Hok.
  destruct (users_upsert_spec k e n st Hok)
    as (u & st1 & Hup & Hok1 & Hw1 & Ht1 & Hacc1 & Hkey & Hin & Hprev & Hframe).
  destruct (find_or_create_wallet_spec (Users.id u) st1 Hok1 Hin)
    as (w & st2 & Hfc & Hok2 & Hu2 & Ht2 & Hf2 & Hcase).
  destruct (credit_spec w o pts now st2 Hok2)
    as (st3 & Hcr & Hok3 & Hu3 & Hgen & Hsafe).
  assert (Hacc3 : account k st3 = Some u).
  { rewrite (account_congr k st2 st3 Hu3), (account_congr k st1 st2 Hu2).
    exact Hacc1. }
  exists u, w, (wallets st2), st3.
  split.
  { unfold apply_award. rewrite (bind_normal _ _ _ _ _ Hup).
    rewrite (bind_normal _ _ _ (Users.id u) st1) by reflexivity.
    rewrite (bind_normal _ _ _ _ _ Hfc). exact Hcr. }
  split; [exact Hok3|]. split; [exact Hacc3|].
  split; [exact Hkey|]. split; [exact Hprev|].
  split.
  { intros k' Hk.
    rewrite (account_congr k' st2 st3 Hu3), (account_congr k' st1 st2 Hu2).
    now apply Hframe. }
  rewrite (wallet_of_congr _ st st1 Hw1) in Hcase.
  assert (Htot : (Wallets.points w, Wallets.lifetime_points w) = totals k st
                 /\ (wallets st2 = wallets st /\ In w (wallets st)
                     \/ wallets st2 = wallets st ++ [w]
                        /\ w = new_wallet
                                 (fresh_id (map Wallets.id (wallets st)))
                                 (Users.id u)
                        /\ filter (owned_by (Users.id u)) (wallets st) = [])).
  { unfold totals, balance.
    destruct (account k st) as [u0|] eqn:Ea.
    - rewrite <- Hprev.
      destruct (wallet_of (Users.id u) st) as [w0|] eqn:Ew.
      + destruct Hcase as [-> Hws]. split; [reflexivity|]. left.
        rewrite Hw1 in Hws. split; [exact Hws|].
        destruct (wallet_of_cases (Users.id u) st Hok) as [[_ E]|[w1 [E E']]];
          [congruence|].
        rewrite Ew in E'. injection E' as <-.
        now apply (filter_singleton_In _ _ _ E).
      + destruct Hcase as (-> & Hws & Hnone). rewrite Hw1 in *.
        split; [reflexivity|]. right. auto.
    - destruct (wallet_of (Users.id u) st) as [w0|] eqn:Ew.
      + exfalso. apply Hprev.
        destruct (wallet_of_cases (Users.id u) st Hok) as [[_ E]|[w1 [E E']]];
          [congruence|].
        destruct (filter_singleton_In _ _ _ E) as [Hi Ho].
        apply (wallets_user_known _ Hok).
        unfold owned_by in Ho. apply Z.eqb_eq in Ho. rewrite <- Ho.
        now apply in_map.
      + destruct Hcase as (-> & Hws & Hnone). rewrite Hw1 in *.
        split; [reflexivity|]. right. auto. }
  destruct Htot as [Htot Hws].
  split; [exact Htot|]. split; [exact Hws|].
  split; [apply Hok2|]. split; [exact Hf2|]. split; [exact Hgen|].
  intros d Hd Hp Hl Hpd Hld.
  destruct (Hsafe d Hd Hp Hl Hpd Hld) as [Hw3 Ht3].
  split; [exact Hw3|]. split; [rewrite Ht3, Ht2, Ht1; reflexivity|].
  unfold balance. rewrite Hacc3. unfold wallet_of. rewrite Hw3.
  rewrite filter_map_preserved by (intros x; apply set_totals_owned_by).
  rewrite Hf2. simpl. unfold set_totals, has_id. rewrite Z.eqb_refl.
  reflexivity.
Qed.

End LedgerFacts.

(** * The webhook handler, case by case *)

Section Claims.

Local Open Scope string_scope.

Variable Number_toString : number -> string.
Variable hmac_sha256_base64 : string -> string -> string.
Variable JSON_parse : string -> option value.
Variable SHOPIFY_WEBHOOK_SECRET : option string.

Abbreviation verifies :=
  (signature_verifies hmac_sha256_base64 SHOPIFY_WEBHOOK_SECRET).
Abbreviation delivered :=
  (delivers hmac_sha256_base64 JSON_parse SHOPIFY_WEBHOOK_SECRET).
Abbreviation key_of := (shopifyCustomerId_of Number_toString).
Abbreviation full_name_of := (name_of Number_toString).
Abbreviation order_of := (orderId_of Number_toString).
Abbreviation award_of := (points_of Number_toString).
Abbreviation handler :=
  (orders_paid Number_toString hmac_sha256_base64 JSON_parse
     SHOPIFY_WEBHOOK_SECRET).

Lemma get_property (o : value) (key : string) :
  nullish o = false -> get o key = ret (property o key).
Proof. destruct o; simpl; intros H; try discriminate; reflexivity. Qed.

Lemma truthy_not_nullish (v : value) : ToBoolean v = true -> nullish v = false.
Proof. destruct v; simpl; intros H; try discriminate; reflexivity. Qed.

Lemma verifyHmac_verifies (req : request) (st : store) :
  verifies req = true ->
  verifyHmac hmac_sha256_base64 SHOPIFY_WEBHOOK_SECRET req st
  = (Normal true, st).
Proof.
  unfold signature_verifies, verifyHmac.
  destruct SHOPIFY_WEBHOOK_SECRET; [|discriminate].
  destruct (body req); [|discriminate].
  destruct (X_Shopify_Hmac_Sha256 req); [|discriminate].
  intros ->. reflexivity.
Qed.

(** An authenticated, parsed delivery either has a falsy [customer] and is
    answered "No customer" with the store untouched, or runs the award. *)
Lemma orders_paid_delivery (now : string) (req : request) (order : value)
    (st : store) :
  delivered req order ->
  handler now req st
  = if ToBoolean (customer_of order) then
      match apply_award (key_of order) (email_of order)
              (full_name_of order) (order_of order) (award_of order) now st with
      | (Normal _, st') => (Normal (send 200 "OK"), st')
      | (Throw _, st') => (Normal (send 500 "Server error"), st')
      end
    else (Normal (send 200 "No customer"), st).
Proof.
  intros (Hsig & Hnull & data & Hbody & Hparse).
  unfold orders_paid, try_catch.
  rewrite (LedgerFacts.bind_normal _ _ _ _ _ (verifyHmac_verifies req st Hsig)).
  cbv [negb]. unfold getJson. rewrite Hbody, Hparse.
  rewrite LedgerFacts.bind_ret_l, (get_property order _ Hnull),
    LedgerFacts.bind_ret_l.
  fold (customer_of order).
  destruct (ToBoolean (customer_of order)) eqn:Ec; cbv [negb];
    [|reflexivity].
  pose proof (truthy_not_nullish _ Ec) as Hc.
  rewrite !(get_property (customer_of order) _ Hc).
  rewrite !(get_property order _ Hnull).
  rewrite !LedgerFacts.bind_ret_l.
  fold (key_of order) (email_of order) (full_name_of order)
       (order_of order) (award_of order).
  unfold bind, ret.
  destruct (apply_award _ _ _ _ _ now st) as [[[]|err] st']; reflexivity.
Qed.


(** Anything that is not an authenticated delivery with a truthy
    [customer] leaves the store as it was. *)
Lemma orders_paid_writes (now : string) (req : request) (st : store) :
  snd (handler now req st) = st
  \/ exists order, delivered req order /\ ToBoolean (customer_of order) = true.
Proof.
  destruct (verifies req) eqn:Hsig.
  - destruct (body req) as [data|] eqn:Hbody.
    + destruct (JSON_parse data) as [order|] eqn:Hparse.
      * destruct (nullish order) eqn:Hnull.
        -- left. unfold orders_paid, try_catch.
           rewrite (LedgerFacts.bind_normal _ _ _ _ _
                      (verifyHmac_verifies req st Hsig)).
           cbv [negb]. unfold getJson. rewrite Hbody, Hparse.
           rewrite LedgerFacts.bind_ret_l.
           destruct order; try discriminate; reflexivity.
        -- assert (Hd : delivered req order)
             by (split; [exact Hsig|split; [exact Hnull|eauto]]).
           destruct (ToBoolean (customer_of order)) eqn:Ec.
           ++ right. eauto.
           ++ left. rewrite (orders_paid_delivery now req order st Hd), Ec.
              reflexivity.
      * left. unfold orders_paid, try_catch.
        rewrite (LedgerFacts.bind_normal _ _ _ _ _
                   (verifyHmac_verifies req st Hsig)).
        cbv [negb]. unfold getJson. rewrite Hbody, Hparse. reflexivity.
    + unfold signature_verifies in Hsig. rewrite Hbody in Hsig.
      destruct SHOPIFY_WEBHOOK_SECRET; discriminate.
  - left. unfold signature_verifies in Hsig.
    unfold orders_paid, try_catch, bind, verifyHmac.
    destruct SHOPIFY_WEBHOOK_SECRET; [|reflexivity].
    destruct (body req); [|reflexivity].
    destruct (X_Shopify_Hmac_Sha256 req); [rewrite Hsig|]; reflexivity.
Qed.

(** C4 (as amended).  A request whose signature does not verify -- a
    missing header included -- is not processed and writes nothing.  It is
    answered 401 "Invalid HMAC" when the secret is configured and the raw
    body was read; when the secret is missing (or there is no raw body)
    the digest cannot be computed, [verifyHmac] throws, and the answer is
    500 "Server error". *)
Theorem unverified_request_writes_nothing (now : string) (req : request)
    (st : store) :
  verifies req = false ->
  handler now req st
  = (Normal
       match SHOPIFY_WEBHOOK_SECRET, body req with
       | Some _, Some _ => send 401 "Invalid HMAC"
       | _, _ => send 500 "Server error"
       end, st).
Proof.
  unfold signature_verifies, orders_paid, try_catch, bind, verifyHmac.
  destruct SHOPIFY_WEBHOOK_SECRET; [|reflexivity].
  destruct (body req); [|reflexivity].
  destruct (X_Shopify_Hmac_Sha256 req); [intros ->|]; reflexivity.
Qed.


(** The handler keeps the keys of the store, whatever the request. *)
Lemma orders_paid_keeps_store_ok (now : string) (req : request) (st : store) :
  store_ok st -> store_ok (snd (handler now req st)).
Proof.
  intros Hok.
  destruct (orders_paid_writes now req st) as [->|(order & Hd & Hc)];
    [exact Hok|].
  destruct (LedgerFacts.apply_award_spec (key_of order) (email_of order)
              (full_name_of order) (order_of order) (award_of order) now st
              Hok) as (u & w & ws & st' & Happ & Hok' & _).
  now rewrite (orders_paid_delivery now req order st Hd), Hc, Happ.
Qed.

(** The balance of the customer after a delivery. *)
Lemma orders_paid_balance (now : string) (req : request) (order : value)
    (st : store) (d : Z) :
  delivered req order ->
  ToBoolean (customer_of order) = true ->
  store_ok st ->
  award_of order = Finite (inject_Z d) ->
  safe (fst (totals (key_of order) st)) ->
  safe (snd (totals (key_of order) st)) ->
  safe (fst (totals (key_of order) st) + d) ->
  safe (snd (totals (key_of order) st) + d) ->
  exists st',
    handler now req st = (Normal (send 200 "OK"), st')
    /\ store_ok st'
    /\ balance (key_of order) st'
       = Some (fst (totals (key_of order) st) + d,
               snd (totals (key_of order) st) + d).
Proof.
  intros Hd Hc Hok Hpts Hp Hl Hpd Hld.
  destruct (LedgerFacts.apply_award_spec (key_of order)
              (email_of order) (full_name_of order) (order_of order)
              (award_of order) now st Hok)
    as (u & w & ws & st' & Happ & Hok' & _ & _ & _ & _ & Htot & _ & _ & _ & _
        & Hsafe).
  rewrite <- Htot in *. simpl in *.
  destruct (Hsafe d Hpts Hp Hl Hpd Hld) as (_ & _ & Hbal).
  exists st'. split; [|split; [exact Hok'|exact Hbal]].
  now rewrite (orders_paid_delivery now req order st Hd), Hc, Happ.
Qed.

(** Two deliveries for the same customer, one after the other: both
    awards are added, whatever the order ids are. *)
Lemma two_deliveries (now1 now2 : string) (req1 req2 : request)
    (order1 order2 : value) (st : store) (d1 d2 : Z) :
  let k := key_of order1 in
  let p := fst (totals k st) in
  let l := snd (totals k st) in
  store_ok st ->
  delivered req1 order1 -> ToBoolean (customer_of order1) = true ->
  delivered req2 order2 -> ToBoolean (customer_of order2) = true ->
  key_of order2 = k ->
  award_of order1 = Finite (inject_Z d1) ->
  award_of order2 = Finite (inject_Z d2) ->
  safe p -> safe l -> safe (p + d1) -> safe (l + d1) ->
  safe (p + d1 + d2) -> safe (l + d1 + d2) ->
  exists st1 st2,
    handler now1 req1 st = (Normal (send 200 "OK"), st1)
    /\ handler now2 req2 st1 = (Normal (send 200 "OK"), st2)
    /\ balance k st1 = Some (p + d1, l + d1)
    /\ balance k st2 = Some (p + d1 + d2, l + d1 + d2).
Proof.
  intros k p l Hok Hd1 Hc1 Hd2 Hc2 Hk Hp1 Hp2 Sp Sl Sp1 Sl1 Sp2 Sl2.
  destruct (orders_paid_balance now1 req1 order1 st d1 Hd1 Hc1 Hok Hp1
              Sp Sl Sp1 Sl1) as (st1 & H1 & Hok1 & Hb1).
  fold k p l in Hb1.
  assert (Ht : totals k st1 = (p + d1, l + d1))
    by (unfold totals; now rewrite Hb1).
  destruct (orders_paid_balance now2 req2 order2 st1 d2 Hd2 Hc2 Hok1 Hp2)
    as (st2 & H2 & Hok2 & Hb2); rewrite ?Hk, ?Ht; simpl; auto.
  rewrite Hk, Ht in Hb2. simpl in Hb2.
  exists st1, st2. auto.
Qed.









Lemma NoDup_map_In_eq {A B} (f : A -> B) (l : list A) (x y : A) :
  NoDup (map f l) -> In x l -> In y l -> f x = f y -> x = y.
Proof.
  induction l as [|a l IH]; simpl; [tauto|].
  intros Hnd Hx Hy E. inversion Hnd as [|? ? Hin Hnd']; subst.
  destruct Hx as [->|Hx], Hy as [->|Hy]; auto.
  - exfalso. apply Hin. rewrite E. now apply in_map.
  - exfalso. apply Hin. rewrite <- E. now apply in_map.
Qed.

(** The balance query writes nothing. *)
Lemma wallet_by_email_reads_only (email : option string) (st : store) :
  snd (wallet_by_email email st) = st.
Proof.
  unfold wallet_by_email, try_catch, bind, users_by_email, wallets_by_user,
    ret.
  destruct email as [[|c r]|]; try reflexivity.
  destruct (filter (has_email (String c r)) (users st)) as [|u [|u' us]];
    try reflexivity.
  simpl.
  destruct (filter (owned_by (Users.id u)) (wallets st)) as [|w [|w' ws]];
    reflexivity.
Qed.



Lemma numeral_nonneg (s : string) (acc : Z) :
  all_digits s = true -> 0 <= acc -> 0 <= numeral s acc.
Proof.
  revert acc. induction s as [|c r IH]; intros acc Hs Hacc; [exact Hacc|].
  cbn [all_digits] in Hs. apply andb_true_iff in Hs as [Hc Hr].
  cbn [numeral]. apply IH; [exact Hr|].
  unfold is_digit, digit_value in Hc.
  destruct ((48 <=? N_of_ascii c)%N) eqn:E; [|discriminate].
  apply N.leb_le in E. lia.
Qed.


End Claims.

(** * Facts about the steps of an award *)

Module AwardFacts.
Import StoreFacts LedgerFacts.

Lemma single_data {A} (l : list A) (x : A) :
  data (single l) = Some x -> l = [x].
Proof. destruct l as [|a [|b l]]; simpl; intros H; congruence. Qed.

Lemma account_In k st u :
  account k st = Some u -> In u (users st) /\ Users.shopify_customer_id u = k.
Proof.
  intros H. apply single_data in H.
  destruct (filter_singleton_In _ _ _ H) as [Hin Hk].
  split; [exact Hin|]. now apply String.eqb_eq.
Qed.

(** The upsert, written out on a store with its keys. *)
Lemma users_upsert_result k e n st :
  store_ok st ->
  users_upsert k e n st
  = match account k st with
    | Some u0 =>
        (Normal {| data := Some (merge_user k e n u0); error := false |},
         set_users (map (merge_user k e n) (users st)) st)
    | None =>
        (Normal {| data := Some (new_user (fresh_id (map Users.id (users st)))
                                   k e n);
                   error := false |},
         set_users (users st
                    ++ [new_user (fresh_id (map Users.id (users st))) k e n])
           st)
    end.
Proof.
  intros Hok. unfold users_upsert.
  destruct (account_cases k st Hok) as [[E Ea]|[u0 [E Ea]]]; rewrite Ea.
  - now rewrite (proj2 (existsb_filter _ _) E).
  - destruct (existsb (has_key k) (users st)) eqn:Ex;
      [|apply existsb_filter in Ex; congruence].
    rewrite filter_map_preserved by (intros x; apply merge_user_has_key).
    now rewrite E.
Qed.

(** The steps of an award on a store with its keys, one after the
    other. *)
Lemma apply_award_steps k e n o pts now st :
  store_ok st ->
  exists u st1 w st2 st3,
    users_upsert k e n st
    = (Normal {| data := Some u; error := false |}, st1)
    /\ find_or_create_wallet (Users.id u) st1 = (Normal (Some w), st2)
    /\ credit (Some w) o pts now st2 = (Normal tt, st3)
    /\ apply_award k e n o pts now st = (Normal tt, st3)
    /\ store_ok st1 /\ store_ok st2 /\ store_ok st3
    /\ wallets st1 = wallets st
    /\ wallet_transactions st1 = wallet_transactions st
    /\ users st2 = users st1
    /\ wallet_transactions st2 = wallet_transactions st1
    /\ users st3 = users st2
    /\ In (Users.id u) (map Users.id (users st1)).
Proof.
  intros Hok.
  destruct (users_upsert_spec k e n st Hok)
    as (u & st1 & Hup & Hok1 & Hw1 & Ht1 & Hacc1 & Hkey & Hin & Hprev & Hframe).
  destruct (find_or_create_wallet_spec (Users.id u) st1 Hok1 Hin)
    as (w & st2 & Hfc & Hok2 & Hu2 & Ht2 & Hf2 & Hcase).
  destruct (credit_spec w o pts now st2 Hok2)
    as (st3 & Hcr & Hok3 & Hu3 & Hgen & Hsafe).
  exists u, st1, w, st2, st3.
  repeat (split; [assumption|]).
  split.
  { unfold apply_award. rewrite (bind_normal _ _ _ _ _ Hup).
    rewrite (bind_normal _ _ _ (Users.id u) st1) by reflexivity.
    rewrite (bind_normal _ _ _ _ _ Hfc). exact Hcr. }
  repeat (split; [assumption|]). assumption.
Qed.

End AwardFacts.

(** * Facts about the rows a request adds *)

Module GrowthFacts.
Import StoreFacts LedgerFacts AwardFacts.

Lemma users_upsert_effect k e n st :
  let st1 := snd (users_upsert k e n st) in
  wallets st1 = wallets st
  /\ wallet_transactions st1 = wallet_transactions st
  /\ (List.length (users st) <= List.length (users st1)
      <= S (List.length (users st)))%nat.
Proof.
  unfold users_upsert.
  destruct (existsb (has_key k) (users st)); simpl;
    rewrite ?length_map, ?length_app; simpl; repeat split; lia.
Qed.

Lemma find_or_create_wallet_effect uid st :
  let st2 := snd (find_or_create_wallet uid st) in
  users st2 = users st
  /\ wallet_transactions st2 = wallet_transactions st
  /\ at_most_one_more (wallets st) (wallets st2).
Proof.
  unfold find_or_create_wallet, wallets_by_user, bind, wallets_insert, ret.
  destruct (data (single (filter (owned_by uid) (wallets st)))); simpl.
  - repeat split. exists []. rewrite app_nil_r. split; [reflexivity|simpl; lia].
  - repeat split. eexists. split; [reflexivity|simpl; lia].
Qed.

Lemma credit_effect wallet o pts now st :
  let st3 := snd (credit wallet o pts now st) in
  users st3 = users st
  /\ List.length (wallets st3) = List.length (wallets st)
  /\ at_most_one_more (wallet_transactions st) (wallet_transactions st3).
Proof.
  assert (Hsame : at_most_one_more (wallet_transactions st)
                    (wallet_transactions st)).
  { exists []. rewrite app_nil_r. split; [reflexivity|simpl; lia]. }
  unfold credit, column, bind, ret, throw, wallet_transactions_insert,
    wallets_update.
  destruct wallet as [w|]; [|simpl; auto].
  destruct (to_column pts);
    destruct (to_column (Number.add (Number.of_Z (Wallets.points w)) pts));
    destruct (to_column
                (Number.add (Number.of_Z (Wallets.lifetime_points w)) pts));
    simpl; rewrite ?length_map; repeat split; auto;
    eexists; (split; [reflexivity|simpl; lia]).
Qed.

Lemma apply_award_effect k e n o pts now st :
  let st' := snd (apply_award k e n o pts now st) in
  (List.length (users st) <= List.length (users st')
   <= S (List.length (users st)))%nat
  /\ (List.length (wallets st) <= List.length (wallets st')
      <= S (List.length (wallets st)))%nat
  /\ at_most_one_more (wallet_transactions st) (wallet_transactions st').
Proof.
  pose proof (users_upsert_effect k e n st) as (Hw1 & Ht1 & Hu1).
  assert (Hsame : forall A (l : list A), at_most_one_more l l).
  { intros A l. exists []. rewrite app_nil_r. split; [reflexivity|simpl; lia]. }
  cbv zeta in *.
  destruct (apply_award k e n o pts now st) as [c st'] eqn:E. simpl.
  unfold apply_award, bind, column in E.
  destruct (users_upsert k e n st) as [[user|err] st1]; simpl in *;
    [|injection E as <- <-; rewrite Hw1, Ht1; auto].
  destruct (data user) as [u|]; unfold ret, throw in E;
    [|injection E as <- <-; rewrite Hw1, Ht1; auto].
  pose proof (find_or_create_wallet_effect (Users.id u) st1)
    as (Hu2 & Ht2 & added & Hw2 & Hlen).
  destruct (find_or_create_wallet (Users.id u) st1) as [[wallet|err] st2];
    simpl in *.
  - pose proof (credit_effect wallet o pts now st2) as (Hu3 & Hw3 & Ht3).
    rewrite E in *. simpl in *.
    rewrite Hu3, Hu2, Hw3, Hw2, Hw1, length_app.
    rewrite Ht2, Ht1 in Ht3. repeat split; try lia; exact Ht3.
  - injection E as <- <-.
    rewrite Hu2, Hw2, Hw1, Ht2, Ht1, length_app. repeat split; auto; lia.
Qed.

End GrowthFacts.

(** * Facts about the sum of the transactions *)

Module LedgerSumFacts.
Import StoreFacts LedgerFacts AwardFacts.

Lemma sum_app (l1 l2 : list Z) :
  fold_right Z.add 0 (l1 ++ l2)
  = fold_right Z.add 0 l1 + fold_right Z.add 0 l2.
Proof. induction l1 as [|a l IH]; simpl; lia. Qed.

Lemma earned_append (i : Z) (t : WalletTransactions.row) (st st' : store) :
  wallet_transactions st' = wallet_transactions st ++ [t] ->
  earned i st'
  = earned i st
    + (if WalletTransactions.wallet_id t =? i
       then WalletTransactions.points_change t else 0).
Proof.
  intros H. unfold earned. rewrite H, filter_app, map_app, sum_app. simpl.
  destruct (WalletTransactions.wallet_id t =? i); simpl; lia.
Qed.

Lemma earned_none (i : Z) (st : store) :
  (forall t, In t (wallet_transactions st) ->
             WalletTransactions.wallet_id t <> i) ->
  earned i st = 0.
Proof.
  intros H. unfold earned. rewrite filter_none; [reflexivity|].
  intros t Ht. apply Z.eqb_neq. now apply H.
Qed.

Lemma empty_store_ledger_ok : ledger_ok empty_store.
Proof. split; intros x []. Qed.

(** The award keeps the ledger and the totals in step. *)
Lemma apply_award_ledger_ok k e n o pts now st d :
  store_ok st -> ledger_ok st ->
  pts = Finite (inject_Z d) ->
  safe (fst (totals k st)) -> safe (snd (totals k st)) ->
  safe (fst (totals k st) + d) -> safe (snd (totals k st) + d) ->
  ledger_ok (snd (apply_award k e n o pts now st)).
Proof.
  intros Hok [Hbal Hfk] Hpts Sp Sl Spd Sld.
  destruct (apply_award_spec k e n o pts now st Hok)
    as (u & w & ws & st' & Happ & _ & _ & _ & _ & _ & Htot & Hws & Hnd & Hf
        & _ & Hsafe).
  rewrite Happ. simpl.
  rewrite <- Htot in *. simpl in *.
  destruct (Hsafe d Hpts Sp Sl Spd Sld) as (Hw' & Ht' & _).
  destruct (filter_singleton_In _ _ _ Hf) as [Hwin _].
  assert (Hold : forall x, In x (wallets st) -> In x ws).
  { intros x Hx. destruct Hws as [[-> _]|[-> _]]; [exact Hx|].
    apply in_or_app. now left. }
  assert (Hfkws : forall t, In t (wallet_transactions st) ->
                            In (WalletTransactions.wallet_id t)
                               (map Wallets.id ws)).
  { intros t Ht. apply in_map_iff.
    destruct (proj1 (in_map_iff _ _ _) (Hfk t Ht)) as (x & Hx & Hin).
    exists x. split; [exact Hx|now apply Hold]. }
  assert (Hbalws : forall x, In x ws ->
                     Wallets.points x = earned (Wallets.id x) st
                     /\ Wallets.lifetime_points x = earned (Wallets.id x) st).
  { intros x Hx. destruct Hws as [[-> _]|(-> & Hnew & _)]; [now apply Hbal|].
    apply in_app_or in Hx as [Hx|[<-|[]]]; [now apply Hbal|].
    rewrite earned_none; [rewrite Hnew; auto|].
    intros t Ht E. rewrite Hnew in E. simpl in E.
    apply (fresh_id_new (map Wallets.id (wallets st))).
    rewrite <- E. now apply Hfk. }
  assert (Hids : map Wallets.id (wallets st') = map Wallets.id ws).
  { rewrite Hw', map_map. apply map_ext. intros x. apply set_totals_id. }
  split.
  - intros x' Hx'. rewrite Hw' in Hx'.
    apply in_map_iff in Hx' as (x & <- & Hx).
    rewrite set_totals_id, (earned_append _ _ _ _ Ht'). simpl.
    unfold set_totals, has_id.
    destruct (Z.eqb_spec (Wallets.id x) (Wallets.id w)) as [E|E].
    + assert (x = w) by (apply (NoDup_map_In_eq Wallets.id ws); auto).
      subst x. simpl. rewrite Z.eqb_refl.
      destruct (Hbalws w Hwin) as [-> ->]. auto.
    + destruct (Z.eqb_spec (Wallets.id w) (Wallets.id x)) as [E'|_];
        [congruence|].
      rewrite !Z.add_0_r. now apply Hbalws.
  - intros t Ht. rewrite Ht' in Ht. rewrite Hids.
    apply in_app_or in Ht as [Ht|[<-|[]]]; [now apply Hfkws|].
    simpl. now apply in_map.
Qed.

End LedgerSumFacts.

(** * Facts about the account of a customer *)

Module AccountFacts.
Import StoreFacts LedgerFacts AwardFacts.

Lemma filter_map {A B} (p : B -> bool) (g : A -> B) (l : list A) :
  filter p (map g l) = map g (filter (fun x => p (g x)) l).
Proof.
  induction l as [|a l IH]; simpl; [reflexivity|].
  destruct (p (g a)); simpl; now rewrite IH.
Qed.

Lemma merge_user_idempotent k e n x :
  merge_user k e n (merge_user k e n x) = merge_user k e n x.
Proof.
  unfold merge_user. destruct (has_key k x) eqn:E.
  - unfold has_key. cbn [Users.shopify_customer_id].
    rewrite String.eqb_refl. destruct e; reflexivity.
  - now rewrite E.
Qed.

Lemma merge_user_new_user k e n i :
  merge_user k e n (new_user i k e n) = new_user i k e n.
Proof.
  unfold merge_user, new_user, has_key. cbn [Users.shopify_customer_id].
  rewrite String.eqb_refl. destruct e; reflexivity.
Qed.

Lemma merge_user_absent k e n l :
  filter (has_key k) l = [] -> map (merge_user k e n) l = l.
Proof.
  intros H. rewrite <- (map_id l) at 2. apply map_ext_in. intros x Hx.
  unfold merge_user. destruct (has_key k x) eqn:E; [|reflexivity].
  assert (In x (filter (has_key k) l)) by (apply filter_In; auto).
  rewrite H in *. contradiction.
Qed.

Lemma users_upsert_account k e n st :
  store_ok st ->
  exists st1,
    users_upsert k e n st
    = (Normal {| data := Some (upserted k e n st); error := false |}, st1)
    /\ store_ok st1
    /\ account k st1 = Some (upserted k e n st)
    /\ wallets st1 = wallets st
    /\ List.length (users st1)
       = (List.length (users st)
          + match account k st with Some _ => 0 | None => 1 end)%nat
    /\ map (merge_user k e n) (users st1) = users st1.
Proof.
  intros Hok.
  destruct (users_upsert_spec k e n st Hok)
    as (u & st1 & Hup & Hok1 & Hw1 & _ & Hacc1 & _).
  pose proof (users_upsert_result k e n st Hok) as Hres.
  unfold upserted.
  destruct (account_cases k st Hok) as [[E Ea]|[u0 [E Ea]]]; rewrite Ea in *;
    rewrite Hup in Hres; injection Hres as -> ->;
    eexists; (split; [exact Hup|]); (split; [exact Hok1|]);
    (split; [exact Hacc1|]); (split; [exact Hw1|]); simpl; split.
  - rewrite length_app. simpl. lia.
  - rewrite map_app, (merge_user_absent k e n _ E). simpl.
    now rewrite merge_user_new_user.
  - rewrite length_map. lia.
  - rewrite map_map. apply map_ext. intros x. apply merge_user_idempotent.
Qed.

(** The award leaves the balance of every other customer as it was. *)
Lemma apply_award_frame k e n o pts now st k' :
  store_ok st -> k' <> k ->
  balance k' (snd (apply_award k e n o pts now st)) = balance k' st.
Proof.
  intros Hok Hk.
  destruct (apply_award_spec k e n o pts now st Hok)
    as (u & w & ws & st' & Happ & Hok' & Hacc & _ & _ & Hframe & _ & Hws & Hnd
        & Hf & Hgen & _).
  rewrite Happ. simpl. unfold balance. rewrite (Hframe k' Hk).
  destruct (account k' st) as [u'|] eqn:Ea'; [|reflexivity].
  destruct (filter_singleton_In _ _ _ Hf) as [Hwin Hown].
  unfold owned_by in Hown. apply Z.eqb_eq in Hown.
  assert (Hid : Users.id u' <> Users.id u).
  { intros E. rewrite <- (Hframe k' Hk) in Ea'.
    destruct (account_In _ _ _ Ea') as [Hin' Hkey'].
    destruct (account_In _ _ _ Hacc) as [Hin Hkey].
    assert (u' = u)
      by (apply (NoDup_map_In_eq Users.id (users st')); auto; apply Hok').
    subst u'. congruence. }
  assert (Hfilter : filter (owned_by (Users.id u')) ws
                    = filter (owned_by (Users.id u')) (wallets st)).
  { destruct Hws as [[-> _]|(-> & _ & _)]; [reflexivity|].
    rewrite filter_app. simpl. unfold owned_by at 2.
    destruct (Z.eqb_spec (Wallets.user_id w) (Users.id u')); [congruence|].
    now rewrite app_nil_r. }
  assert (Hsame : filter (owned_by (Users.id u')) (wallets st')
                  = filter (owned_by (Users.id u')) (wallets st)).
  { destruct Hgen as [->|(p & l & ->)]; [exact Hfilter|].
    rewrite filter_map_preserved by (intros x; apply set_totals_owned_by).
    rewrite Hfilter.
    rewrite <- (map_id (filter _ (wallets st))) at 2.
    apply map_ext_in. intros x Hx. rewrite <- Hfilter in Hx.
    apply filter_In in Hx as [Hx Hox].
    unfold owned_by in Hox. apply Z.eqb_eq in Hox.
    unfold set_totals, has_id.
    destruct (Z.eqb_spec (Wallets.id x) (Wallets.id w)) as [E|_];
      [|reflexivity].
    assert (x = w) by (apply (NoDup_map_In_eq Wallets.id ws); auto).
    subst x. congruence. }
  unfold wallet_of. now rewrite Hsame.
Qed.

(** The account of the event after the award, and the rows added. *)
Lemma apply_award_rows k e n o pts now st :
  store_ok st ->
  let st' := snd (apply_award k e n o pts now st) in
  account k st' = Some (upserted k e n st)
  /\ users st' = users (snd (users_upsert k e n st))
  /\ List.length (users st')
     = (List.length (users st)
        + match account k st with Some _ => 0 | None => 1 end)%nat
  /\ List.length (wallets st')
     = (List.length (wallets st)
        + match balance k st with Some _ => 0 | None => 1 end)%nat.
Proof.
  intros Hok.
  destruct (apply_award_steps k e n o pts now st Hok)
    as (u & st1 & w & st2 & st3 & Hup & Hfc & Hcr & Happ & Hok1 & Hok2 & Hok3
        & Hw1 & Ht1 & Hu2 & Ht2 & Hu3 & Hin).
  destruct (users_upsert_account k e n st Hok)
    as (st1' & Hup' & _ & Hacc1 & _ & Hlen & _).
  rewrite Hup in Hup'. injection Hup' as -> <-.
  destruct (users_upsert_spec k e n st Hok)
    as (u' & st1' & Hup' & _ & _ & _ & _ & _ & _ & Hprev & _).
  rewrite Hup in Hup'. injection Hup' as <- <-.
  destruct (find_or_create_wallet_spec _ st1 Hok1 Hin)
    as (w' & st2' & Hfc' & _ & _ & _ & _ & Hcase).
  rewrite Hfc in Hfc'. injection Hfc' as <- <-.
  destruct (credit_spec w o pts now st2 Hok2)
    as (st3' & Hcr' & _ & _ & Hgen & _).
  rewrite Hcr in Hcr'. injection Hcr' as <-.
  cbv zeta. rewrite Happ, Hup. simpl.
  split; [rewrite (account_congr k st2 st3 Hu3), (account_congr k st1 st2 Hu2);
          exact Hacc1|].
  split; [congruence|].
  split; [rewrite Hu3, Hu2; exact Hlen|].
  assert (Hl3 : List.length (wallets st3) = List.length (wallets st2))
    by (destruct Hgen as [->|(p & l & ->)]; rewrite ?length_map; reflexivity).
  rewrite Hl3. rewrite (wallet_of_congr _ st st1 Hw1) in Hcase.
  unfold balance.
  destruct (account k st) as [u0|] eqn:Ea.
  - rewrite <- Hprev.
    destruct (wallet_of (Users.id (upserted k e n st)) st) as [w0|].
    + destruct Hcase as [_ ->]. rewrite Hw1. lia.
    + destruct Hcase as (_ & -> & _). rewrite Hw1, length_app. simpl. lia.
  - destruct (wallet_of (Users.id (upserted k e n st)) st) as [w0|] eqn:Ew.
    + exfalso. apply Hprev.
      apply single_data in Ew.
      destruct (filter_singleton_In _ _ _ Ew) as [Hi Ho].
      apply (wallets_user_known _ Hok).
      unfold owned_by in Ho. apply Z.eqb_eq in Ho. rewrite <- Ho.
      now apply in_map.
    + destruct Hcase as (_ & -> & _). rewrite Hw1, length_app. simpl. lia.
Qed.

End AccountFacts.

(** * Facts about the balance query *)

Module QueryFacts.
Import StoreFacts LedgerFacts AwardFacts AccountFacts.

(** The rows of an email after the upsert of a customer with that email,
    when no other customer has it. *)
Lemma users_upsert_by_email k e n st :
  store_ok st ->
  (forall x, In x (users st) -> has_email e x = true -> has_key k x = true) ->
  filter (has_email e) (users (snd (users_upsert k (VStr e) n st)))
  = [upserted k (VStr e) n st].
Proof.
  intros Hok Hown. rewrite (users_upsert_result k (VStr e) n st Hok).
  unfold upserted.
  destruct (account_cases k st Hok) as [[E Ea]|[u0 [E Ea]]]; rewrite Ea;
    cbn [snd set_users users].
  - rewrite filter_app.
    replace (filter (has_email e) (users st)) with (@nil Users.row).
    + cbn [filter app]. unfold has_email, new_user. cbn [Users.email].
      now rewrite String.eqb_refl.
    + symmetry. apply filter_none. intros x Hx.
      destruct (has_email e x) eqn:Ee; [|reflexivity].
      assert (In x (filter (has_key k) (users st)))
        by (apply filter_In; auto).
      rewrite E in *. contradiction.
  - rewrite filter_map.
    rewrite (filter_ext_in (fun x => has_email e (merge_user k (VStr e) n x))
               (has_key k)).
    + now rewrite E.
    + intros x Hx. unfold merge_user.
      destruct (has_key k x) eqn:Ek.
      * unfold has_email. cbn [Users.email]. apply String.eqb_refl.
      * destruct (has_email e x) eqn:Ee; [|reflexivity].
        rewrite (Hown x Hx Ee) in Ek. discriminate.
Qed.

Lemma owned_by_at_most_one uid st :
  store_ok st -> (List.length (filter (owned_by uid) (wallets st)) <= 1)%nat.
Proof.
  intros Hok. pose proof (wallets_user_unique st Hok) as Hnd.
  induction (wallets st) as [|w ws IH]; simpl; [lia|].
  inversion Hnd as [|? ? Hnot Hnd']; subst.
  destruct (owned_by uid w) eqn:E; [|auto].
  replace (filter (owned_by uid) ws) with (@nil Wallets.row); [simpl; lia|].
  symmetry. apply filter_none. intros x Hx.
  destruct (owned_by uid x) eqn:Ex; [|reflexivity].
  unfold owned_by in *. apply Z.eqb_eq in E, Ex.
  exfalso. apply Hnot. rewrite E, <- Ex. now apply in_map.
Qed.

End QueryFacts.

(** * Facts about amounts and names *)

Module AmountFacts.
Import NumberFacts ParseFacts.

Local Open Scope string_scope.
Local Open Scope Z_scope.

Lemma round64_cases (q : Q) :
  (exists s, round64 q = Infinity s) \/ (exists r, round64 q = Finite r).
Proof.
  unfold round64, round_pos.
  destruct (Qnum q); [right; eauto| |];
    match goal with
    | |- context [if ?b then _ else _] => destruct b
    end; eauto.
Qed.

Lemma skip_all_white_space (ws s : string) :
  all_white_space ws = true ->
  skip_white_space (ws ++ s) = skip_white_space s.
Proof.
  induction ws as [|c r IH]; [reflexivity|].
  cbn [all_white_space]. intros H. apply andb_true_iff in H as [Hc Hr].
  change (String c r ++ s) with (String c (r ++ s)).
  cbn [skip_white_space]. rewrite Hc. now apply IH.
Qed.

Lemma parseFloat_white_space (ws s : string) :
  all_white_space ws = true -> parseFloat (ws ++ s) = parseFloat s.
Proof.
  intros H. unfold parseFloat. now rewrite (skip_all_white_space ws s H).
Qed.

Lemma plain_text_head (t : string) :
  plain_text t = true ->
  match t with
  | String c _ => is_digit c = false
  | EmptyString => True
  end
  /\ exponent_part t = 0
  /\ match t with
     | String "."%char r => False
     | _ => True
     end.
Proof.
  destruct t as [|c r]; [intros _; repeat split|].
  cbn [plain_text]. intros H. apply negb_true_iff in H.
  apply orb_false_iff in H as [H HE]. apply orb_false_iff in H as [H He].
  apply orb_false_iff in H as [Hd Hp].
  split; [exact Hd|]. split.
  - unfold exponent_part. now rewrite He, HE.
  - destruct c as [[] [] [] [] [] [] [] []]; try exact I. discriminate.
Qed.

Lemma append_assoc (a b c : string) : (a ++ b) ++ c = a ++ b ++ c.
Proof. induction a; simpl; congruence. Qed.

(** The literal at the head of an amount followed by plain text. *)
Lemma unsigned_literal_decimal_then (ip fp s t : string) :
  all_digits ip = true -> all_digits fp = true -> ip <> "" ->
  s = ip ++ "." ++ fp \/ fp = "" /\ s = ip ->
  plain_text t = true ->
  unsigned_literal (s ++ t)
  = Some (LitDecimal (numeral (ip ++ fp) 0) (- Z.of_nat (String.length fp))).
Proof.
  intros Hip Hfp Hne Hs Ht.
  destruct (plain_text_head t Ht) as (Hd & Hx & Hp).
  destruct ip as [|c0 r0]; [contradiction|].
  assert (Hc0 : is_digit c0 = true)
    by (simpl in Hip; now apply andb_true_iff in Hip as [? _]).
  assert (Hlen : (0 + Z.of_nat (String.length (String c0 r0)) =? 0)%Z = false)
    by (apply Z.eqb_neq; simpl String.length; lia).
  unfold unsigned_literal.
  destruct Hs as [->|[-> ->]].
  - destruct (digit_head c0 ((r0 ++ "." ++ fp) ++ t) Hc0) as (_ & Hpre & _).
    change ((String c0 r0 ++ "." ++ fp) ++ t)
      with (String c0 ((r0 ++ "." ++ fp) ++ t)).
    rewrite Hpre.
    replace (String c0 ((r0 ++ "." ++ fp) ++ t))
      with (String c0 r0 ++ String "." (fp ++ t))
      by (cbn [append]; now rewrite append_assoc).
    rewrite (digits_numeral (String c0 r0) (String "." (fp ++ t)) 0 0 Hip)
      by reflexivity.
    rewrite (digits_numeral fp t _ 0 Hfp Hd).
    rewrite Hlen. simpl andb. cbv iota.
    rewrite numeral_app, Hx. reflexivity.
  - destruct (digit_head c0 (r0 ++ t) Hc0) as (_ & Hpre & _).
    change (String c0 r0 ++ t) with (String c0 (r0 ++ t)).
    rewrite Hpre.
    change (String c0 (r0 ++ t)) with (String c0 r0 ++ t).
    rewrite (digits_numeral (String c0 r0) t 0 0 Hip Hd).
    rewrite append_empty.
    assert (Hrest : match t with
                    | String "."%char r =>
                        digits r (numeral (String c0 r0) 0) 0
                    | _ => (numeral (String c0 r0) 0, 0, t)
                    end = (numeral (String c0 r0) 0, 0, t)).
    { destruct t as [|c r]; [reflexivity|].
      destruct c as [[] [] [] [] [] [] [] []]; try reflexivity.
      contradiction. }
    rewrite Hrest, Hlen. simpl andb. cbv iota. rewrite Hx. reflexivity.
Qed.

Lemma parseFloat_decimal_then (negative : bool) (ip fp s t : string) :
  all_digits ip = true -> all_digits fp = true -> ip <> "" ->
  s = ip ++ "." ++ fp \/ fp = "" /\ s = ip ->
  plain_text t = true ->
  parseFloat ((if negative then "-" else "") ++ s ++ t)
  = parseFloat ((if negative then "-" else "") ++ s).
Proof.
  intros Hip Hfp Hne Hs Ht.
  rewrite (parseFloat_decimal negative ip fp s Hip Hfp Hne Hs).
  pose proof (unsigned_literal_decimal_then ip fp s t Hip Hfp Hne Hs Ht)
    as Hlit.
  unfold parseFloat. destruct negative.
  - change ("-" ++ s ++ t) with (String "-" (s ++ t)).
    change (skip_white_space (String "-" (s ++ t)))
      with (String "-" (s ++ t)).
    cbv iota beta. rewrite Hlit. reflexivity.
  - change ("" ++ s ++ t) with (s ++ t).
    assert (Hhead : exists c r, s ++ t = String c r /\ is_digit c = true).
    { destruct ip as [|c0 r0]; [contradiction|].
      simpl in Hip. apply andb_true_iff in Hip as [Hc0 _].
      destruct Hs as [->|[_ ->]].
      - exists c0, ((r0 ++ "." ++ fp) ++ t). now split.
      - exists c0, (r0 ++ t). now split. }
    destruct Hhead as (c & r & E & Hc). rewrite E in *.
    destruct (digit_head c r Hc) as (Hws & _ & Hsign).
    rewrite Hws, Hsign, Hlit. reflexivity.
Qed.

(** One rounding does not move a decimal amount across an integer. *)
Lemma floor_round64_inexact (negative : bool) (c D : Z) :
  0 < c < 2 ^ 50 -> 0 < D <= 10 ^ 300 -> c mod D <> 0 ->
  Number.floor (round64 (Qmake (if negative then - c else c) (Z.to_pos D)))
  = Finite (inject_Z ((if negative then - c else c) / D)).
Proof.
  intros Hc HD Hb.
  set (m := if negative then - c else c).
  set (x := Qmake m (Z.to_pos D)).
  assert (Habs : Z.abs (Qnum x) = c)
    by (unfold x, m; simpl; destruct negative; lia).
  assert (Hden : Zpos (Qden x) = D) by (unfold x; simpl; apply Z2Pos.id; lia).
  assert (H1000 : 10 ^ 300 <= 2 ^ 1000) by (vm_compute; discriminate).
  assert (H50 : 2 ^ 50 = 1125899906842624) by reflexivity.
  destruct (round64_small x) as (r1 & Hr1 & B1lo & B1hi).
  { rewrite Habs. lia. }
  { rewrite Habs, Hden. change (2 ^ 52) with 4503599627370496. nia. }
  { rewrite Habs, Hden. nia. }
  rewrite Habs in B1lo, B1hi.
  set (X := Qmake c (Qden x)) in *.
  change (inject_Z (2 ^ 53 - 1)) with (9007199254740991 # 1)%Q in *.
  change (inject_Z (2 ^ 53)) with (9007199254740992 # 1)%Q in *.
  change (inject_Z (2 ^ 53 + 1)) with (9007199254740993 # 1)%Q in *.
  set (a := c / D).
  pose proof (Z.div_mod c D ltac:(lia)) as Hdm. fold a in Hdm.
  pose proof (Z.mod_pos_bound c D ltac:(lia)) as Hbb.
  set (b := c mod D) in *.
  assert (FA1 : (inject_Z a * (9007199254740992 # 1)
                 < X * (9007199254740991 # 1))%Q).
  { unfold X, Qlt, Qmult, inject_Z. cbn [Qnum Qden].
    rewrite !Pos.mul_1_r, Hden. rewrite H50 in Hc. nia. }
  assert (FA2 : (X * (9007199254740993 # 1)
                 < (inject_Z a + 1) * (9007199254740992 # 1))%Q).
  { unfold X, Qlt, Qmult, Qplus, inject_Z. cbn [Qnum Qden].
    rewrite !Pos.mul_1_r, Hden. rewrite H50 in Hc. nia. }
  clearbody X.
  assert (Hsign : (Qnum x <? 0)%Z = negative).
  { unfold x, m. cbn [Qnum]. destruct negative.
    - apply Z.ltb_lt. lia.
    - apply Z.ltb_ge. lia. }
  rewrite Hsign in Hr1. rewrite Hr1. unfold Number.floor. f_equal. f_equal.
  assert (Hlo : (inject_Z a < r1)%Q) by lra.
  assert (Hhi : (r1 < inject_Z a + 1)%Q) by lra.
  destruct negative; unfold m.
  - assert (Hdiv : - c / D = - a - 1).
    { symmetry. apply (Z.div_unique _ _ _ (D - b)); lia. }
    rewrite Hdiv. apply Qfloor_unique.
    + assert (E : (inject_Z (- a - 1) == - inject_Z a - 1)%Q)
        by (unfold Qeq, Qminus, Qplus, Qopp, inject_Z; cbn; lia).
      rewrite E. lra.
    + assert (E : (inject_Z (- a - 1 + 1) == - inject_Z a)%Q)
        by (unfold Qeq, Qopp, inject_Z; cbn; lia).
      rewrite E. lra.
  - fold a. apply Qfloor_unique.
    + lra.
    + rewrite inject_Z_plus. exact Hhi.
Qed.

Lemma floor_round64_decimal (negative : bool) (c k : Z) :
  0 <= c < 2 ^ 50 -> 0 <= k <= 300 ->
  Number.floor (round64 (decimal_value (if negative then - c else c) (- k)))
  = Finite (inject_Z ((if negative then - c else c) / 10 ^ k)).
Proof.
  intros Hc Hk.
  set (m := if negative then - c else c).
  assert (Hpos : 0 < 10 ^ k) by (apply Z.pow_pos_nonneg; lia).
  assert (Hval : (decimal_value m (- k) == Qmake m (Z.to_pos (10 ^ k)))%Q).
  { unfold decimal_value. destruct (0 <=? - k) eqn:E.
    - apply Z.leb_le in E. replace k with 0 by lia. simpl.
      unfold Qeq. simpl. lia.
    - now rewrite Z.opp_involutive. }
  destruct (Z.eq_dec (c mod 10 ^ k) 0) as [Hz|Hnz].
  - apply Z.mod_divide in Hz; [|lia]. destruct Hz as [z Hz].
    set (z' := if negative then - z else z).
    assert (Hm : m = z' * 10 ^ k) by (unfold m, z'; destruct negative; lia).
    rewrite (round64_integer _ z').
    + unfold Number.floor. rewrite Qfloor_Z, Hm, Z.div_mul by lia.
      reflexivity.
    + rewrite Hval. unfold Qeq. simpl. rewrite Z2Pos.id by lia. lia.
    + assert (Z.abs z' <= c) by (unfold z'; destruct negative; nia).
      assert (2 ^ 50 < 2 ^ 53) by (apply Z.pow_lt_mono_r; lia). lia.
  - assert (Hk0 : 0 < k).
    { destruct (Z.eq_dec k 0) as [->|]; [|lia].
      exfalso. apply Hnz. simpl. apply Z.mod_1_r. }
    unfold decimal_value. destruct (0 <=? - k) eqn:E;
      [apply Z.leb_le in E; lia|].
    rewrite Z.opp_involutive. apply floor_round64_inexact.
    + destruct (Z.eq_dec c 0) as [->|]; [|lia].
      exfalso. apply Hnz. apply Z.mod_0_l. lia.
    + split; [exact Hpos|]. apply Z.pow_le_mono_r; lia.
    + exact Hnz.
Qed.

Lemma all_digits_app (s t : string) :
  all_digits s = true -> all_digits t = true -> all_digits (s ++ t) = true.
Proof.
  intros Hs Ht. induction s as [|c r IH]; [exact Ht|].
  simpl in *. apply andb_true_iff in Hs as [Hc Hr].
  rewrite Hc. now apply IH.
Qed.

(** [trim] *)
Lemma trim_end_space (s : string) : trim_end (s ++ " ") = trim_end s.
Proof.
  induction s as [|c r IH]; [reflexivity|].
  change (String c r ++ " ") with (String c (r ++ " ")).
  cbn [trim_end]. now rewrite IH.
Qed.

Lemma trim_end_head (c : ascii) (r : string) :
  is_white_space c = false -> exists r', trim_end (String c r) = String c r'.
Proof.
  intros Hc. cbn [trim_end]. destruct (trim_end r); rewrite ?Hc; eauto.
Qed.

Lemma trim_space_r (s : string) : trim (s ++ " ") = trim s.
Proof.
  unfold trim. induction s as [|c r IH]; [reflexivity|].
  change (String c r ++ " ") with (String c (r ++ " ")).
  cbn [skip_white_space]. destruct (is_white_space c) eqn:Hc; [exact IH|].
  change (String c (r ++ " ")) with (String c r ++ " ").
  apply trim_end_space.
Qed.

Lemma trim_end_idempotent (s : string) : trim_end (trim_end s) = trim_end s.
Proof.
  induction s as [|c r IH]; [reflexivity|].
  cbn [trim_end]. destruct (trim_end r) as [|c' r'] eqn:E.
  - destruct (is_white_space c) eqn:Hc; [reflexivity|].
    cbn [trim_end]. now rewrite Hc.
  - cbn [trim_end] in *. rewrite IH. reflexivity.
Qed.

Lemma skip_white_space_head (s : string) :
  match skip_white_space s with
  | String c _ => is_white_space c = false
  | EmptyString => True
  end.
Proof.
  induction s as [|c r IH]; [exact I|].
  cbn [skip_white_space]. destruct (is_white_space c) eqn:Hc; [exact IH|].
  exact Hc.
Qed.

Lemma trim_idempotent (s : string) : trim (trim s) = trim s.
Proof.
  unfold trim. pose proof (skip_white_space_head s) as Hh.
  destruct (skip_white_space s) as [|c r]; [reflexivity|].
  destruct (trim_end_head c r Hh) as [r' E].
  rewrite E. cbn [skip_white_space]. rewrite Hh, <- E.
  apply trim_end_idempotent.
Qed.

End AmountFacts.

(** * Further properties of the handlers

    As before, for every choice of the platform functions. *)

Section Properties.

Local Open Scope string_scope.

Variable Number_toString : number -> string.
Variable hmac_sha256_base64 : string -> string -> string.
Variable JSON_parse : string -> option value.
Variable SHOPIFY_WEBHOOK_SECRET : option string.

Abbreviation handler :=
  (orders_paid Number_toString hmac_sha256_base64 JSON_parse
     SHOPIFY_WEBHOOK_SECRET).
Abbreviation verifies :=
  (signature_verifies hmac_sha256_base64 SHOPIFY_WEBHOOK_SECRET).
Abbreviation delivered :=
  (delivers hmac_sha256_base64 JSON_parse SHOPIFY_WEBHOOK_SECRET).
Abbreviation key_of := (shopifyCustomerId_of Number_toString).
Abbreviation full_name_of := (name_of Number_toString).
Abbreviation order_of := (orderId_of Number_toString).
Abbreviation award_of := (points_of Number_toString).
Abbreviation served :=
  (serve Number_toString hmac_sha256_base64 JSON_parse
     SHOPIFY_WEBHOOK_SECRET).
Abbreviation delivery := (orders_paid_delivery Number_toString
  hmac_sha256_base64 JSON_parse SHOPIFY_WEBHOOK_SECRET).
Abbreviation writes := (orders_paid_writes Number_toString
  hmac_sha256_base64 JSON_parse SHOPIFY_WEBHOOK_SECRET).
Abbreviation keeps_keys := (orders_paid_keeps_store_ok Number_toString
  hmac_sha256_base64 JSON_parse SHOPIFY_WEBHOOK_SECRET).
Abbreviation adds := (orders_paid_balance Number_toString
  hmac_sha256_base64 JSON_parse SHOPIFY_WEBHOOK_SECRET).

Lemma orders_paid_unverified (now : string) (req : request) (st : store) :
  verifies req = false ->
  handler now req st
  = (Normal
       match SHOPIFY_WEBHOOK_SECRET, body req with
       | Some _, Some _ => send 401 "Invalid HMAC"
       | _, _ => send 500 "Server error"
       end, st).
Proof.
  unfold signature_verifies, orders_paid, try_catch, bind, verifyHmac.
  destruct SHOPIFY_WEBHOOK_SECRET; [|reflexivity].
  destruct (body req); [|reflexivity].
  destruct (X_Shopify_Hmac_Sha256 req); [intros ->|]; reflexivity.
Qed.

(** A verified request whose body does not parse to a JSON value with
    properties is answered 500 and writes nothing; any other verified
    request is a delivery. *)
Lemma orders_paid_verified (now : string) (req : request) (st : store) :
  verifies req = true ->
  (exists data,
      body req = Some data
      /\ (JSON_parse data = None
          \/ exists order, JSON_parse data = Some order /\ nullish order = true)
      /\ handler now req st = (Normal (send 500 "Server error"), st))
  \/ exists order, delivered req order.
Proof.
  intros Hsig.
  assert (Hv := verifyHmac_verifies hmac_sha256_base64 SHOPIFY_WEBHOOK_SECRET
                  req st Hsig).
  destruct (body req) as [data|] eqn:Hbody.
  - destruct (JSON_parse data) as [order|] eqn:Hparse.
    + destruct (nullish order) eqn:Hnull.
      * left. exists data. split; [reflexivity|]. split; [right; eauto|].
        unfold orders_paid, try_catch.
        rewrite (LedgerFacts.bind_normal _ _ _ _ _ Hv).
        cbv [negb]. unfold getJson. rewrite Hbody, Hparse.
        rewrite LedgerFacts.bind_ret_l.
        destruct order; try discriminate; reflexivity.
      * right. exists order. split; [exact Hsig|split; [exact Hnull|eauto]].
    + left. exists data. split; [reflexivity|]. split; [now left|].
      unfold orders_paid, try_catch.
      rewrite (LedgerFacts.bind_normal _ _ _ _ _ Hv).
      cbv [negb]. unfold getJson. rewrite Hbody, Hparse. reflexivity.
  - unfold signature_verifies in Hsig. rewrite Hbody in Hsig.
    destruct SHOPIFY_WEBHOOK_SECRET; discriminate.
Qed.

(** What a delivery is answered. *)
Lemma orders_paid_delivery_answer (now : string) (req : request)
    (order : value) (st : store) :
  delivered req order ->
  fst (handler now req st)
  = Normal (send 200 "No customer") /\ ToBoolean (customer_of order) = false
  \/ ToBoolean (customer_of order) = true
     /\ (fst (handler now req st) = Normal (send 200 "OK")
         \/ fst (handler now req st) = Normal (send 500 "Server error")).
Proof.
  intros Hd. rewrite (delivery now req order st Hd).
  destruct (ToBoolean (customer_of order)); [right|left; auto].
  split; [reflexivity|].
  destruct (apply_award _ _ _ _ _ now st) as [[[]|err] st']; auto.
Qed.

(** X1.  A verified request whose body is not JSON, or is the JSON
    literal [null], is answered 500 "Server error", and nothing is
    written. *)
Theorem unparseable_body_is_server_error (now : string) (req : request)
    (data : string) (st : store) :
  verifies req = true ->
  body req = Some data ->
  JSON_parse data = None \/ JSON_parse data = Some VNull ->
  handler now req st = (Normal (send 500 "Server error"), st).
Proof.
  intros Hsig Hbody Hparse.
  destruct (orders_paid_verified now req st Hsig)
    as [(data' & Hb & _ & Hrun)|(order & _ & Hnull & data' & Hb & Hp)].
  - exact Hrun.
  - rewrite Hbody in Hb. injection Hb as <-.
    destruct Hparse as [Hparse|Hparse]; rewrite Hparse in Hp;
      [discriminate|].
    injection Hp as <-. discriminate.
Qed.

(** X2.  The answer is 401 "Invalid HMAC" exactly when the secret is
    configured, the raw body was read, and the signature header is not
    the digest of the body (a missing header included). *)
Theorem invalid_hmac_iff (now : string) (req : request) (st : store) :
  fst (handler now req st) = Normal (send 401 "Invalid HMAC")
  <-> exists key data,
        SHOPIFY_WEBHOOK_SECRET = Some key
        /\ body req = Some data
        /\ X_Shopify_Hmac_Sha256 req <> Some (hmac_sha256_base64 key data).
Proof.
  split.
  - intros Hrun. destruct (verifies req) eqn:Hsig.
    + exfalso.
      destruct (orders_paid_verified now req st Hsig)
        as [(data & _ & _ & Hrun')|(order & Hd)].
      * rewrite Hrun' in Hrun. discriminate.
      * destruct (orders_paid_delivery_answer now req order st Hd)
          as [[H _]|[_ [H|H]]]; rewrite H in Hrun; discriminate.
    + rewrite (orders_paid_unverified now req st Hsig) in Hrun.
      unfold signature_verifies in Hsig.
      destruct SHOPIFY_WEBHOOK_SECRET as [key|]; [|discriminate].
      destruct (body req) as [data|]; [|discriminate].
      exists key, data. split; [reflexivity|]. split; [reflexivity|].
      destruct (X_Shopify_Hmac_Sha256 req) as [h|]; [|discriminate].
      apply String.eqb_neq in Hsig. congruence.
  - intros (key & data & Hkey & Hbody & Hne).
    assert (Hsig : verifies req = false).
    { unfold signature_verifies. rewrite Hkey, Hbody.
      destruct (X_Shopify_Hmac_Sha256 req) as [h|]; [|reflexivity].
      apply String.eqb_neq. congruence. }
    rewrite (orders_paid_unverified now req st Hsig), Hkey, Hbody.
    reflexivity.
Qed.


(** The store after a delivery with a customer is the store after the
    award, whether the award threw or not. *)
Lemma orders_paid_store (now : string) (req : request) (order : value)
    (st : store) :
  delivered req order -> ToBoolean (customer_of order) = true ->
  snd (handler now req st)
  = snd (apply_award (key_of order) (email_of order) (full_name_of order)
           (order_of order) (award_of order) now st).
Proof.
  intros Hd Hc. rewrite (delivery now req order st Hd), Hc.
  destruct (apply_award _ _ _ _ _ now st) as [[[]|err] st']; reflexivity.
Qed.

(** X4.  A request removes no row: it adds at most one account, at
    most one wallet and at most one transaction, and the transactions
    already recorded stay as they were, in their order. *)
Theorem rows_are_only_added (now : string) (req : request) (st : store) :
  let st' := snd (handler now req st) in
  (List.length (users st) <= List.length (users st')
   <= S (List.length (users st)))%nat
  /\ (List.length (wallets st) <= List.length (wallets st')
      <= S (List.length (wallets st)))%nat
  /\ at_most_one_more (wallet_transactions st) (wallet_transactions st').
Proof.
  cbv zeta.
  destruct (writes now req st) as [->|(order & Hd & Hc)].
  - repeat split; try lia. exists []. rewrite app_nil_r.
    split; [reflexivity|simpl; lia].
  - rewrite (orders_paid_store now req order st Hd Hc).
    apply GrowthFacts.apply_award_effect.
Qed.

(** X5.  A successful application appends exactly one transaction: an
    "earn" from source "order" with the order id, the point delta and the
    note "Points from order", on the wallet of the customer. *)
Theorem award_appends_one_transaction (now : string) (req : request)
    (order : value) (st st' : store) (d : Z) :
  let k := key_of order in
  store_ok st ->
  delivered req order ->
  handler now req st = (Normal (send 200 "OK"), st') ->
  award_of order = Finite (inject_Z d) ->
  safe (fst (totals k st)) -> safe (snd (totals k st)) ->
  safe (fst (totals k st) + d) -> safe (snd (totals k st) + d) ->
  exists u w',
    account k st' = Some u
    /\ filter (owned_by (Users.id u)) (wallets st') = [w']
    /\ wallet_transactions st'
       = (wallet_transactions st
          ++ [{| WalletTransactions.wallet_id := Wallets.id w';
                WalletTransactions.type := "earn";
                WalletTransactions.source := "order";
                WalletTransactions.shopify_order_id := order_of order;
                WalletTransactions.points_change := d;
                WalletTransactions.note := "Points from order" |}])%list.
Proof.
  intros k Hok Hd Hrun Hpts Hp Hl Hpd Hld.
  rewrite (delivery now req order st Hd) in Hrun.
  destruct (ToBoolean (customer_of order)); [|discriminate].
  destruct (LedgerFacts.apply_award_spec k (email_of order)
              (full_name_of order) (order_of order) (award_of order) now st
              Hok)
    as (u & w & ws & st1 & Happ & _ & Hacc & _ & _ & _ & Htot & _ & _ & Hf
        & _ & Hsafe).
  fold k in Hrun. rewrite Happ in Hrun. injection Hrun as <-.
  rewrite <- Htot in *. simpl in *.
  destruct (Hsafe d Hpts Hp Hl Hpd Hld) as (Hws & Hts & _).
  exists u, (set_totals (Wallets.id w) (Wallets.points w + d)
               (Wallets.lifetime_points w + d) now w).
  split; [exact Hacc|]. split.
  - rewrite Hws, StoreFacts.filter_map_preserved
      by (intros x; apply LedgerFacts.set_totals_owned_by).
    now rewrite Hf.
  - rewrite LedgerFacts.set_totals_id. exact Hts.
Qed.

(** X6.  The totals and the transactions stay in step: when every
    wallet holds, in both totals, the sum of the point changes of its
    transactions, it still does after an event is applied. *)
Theorem ledger_stays_consistent (now : string) (req : request)
    (order : value) (st : store) (d : Z) :
  let k := key_of order in
  store_ok st -> ledger_ok st ->
  delivered req order -> ToBoolean (customer_of order) = true ->
  award_of order = Finite (inject_Z d) ->
  safe (fst (totals k st)) -> safe (snd (totals k st)) ->
  safe (fst (totals k st) + d) -> safe (snd (totals k st) + d) ->
  ledger_ok (snd (handler now req st)).
Proof.
  intros k Hok Hled Hd Hc Hpts Hp Hl Hpd Hld.
  rewrite (orders_paid_store now req order st Hd Hc).
  now apply (LedgerSumFacts.apply_award_ledger_ok _ _ _ _ _ _ _ d).
Qed.

(** X7.  An event changes the balance of no other customer: not the
    totals, and not whether there is a wallet. *)
Theorem other_customers_are_untouched (now : string) (req : request)
    (order : value) (st : store) (k' : string) :
  store_ok st ->
  delivered req order ->
  k' <> key_of order ->
  balance k' (snd (handler now req st)) = balance k' st.
Proof.
  intros Hok Hd Hk.
  destruct (ToBoolean (customer_of order)) eqn:Hc.
  - rewrite (orders_paid_store now req order st Hd Hc).
    now apply AccountFacts.apply_award_frame.
  - now rewrite (delivery now req order st Hd), Hc.
Qed.



(** X10.  The failures of the balance query: without an email, or with
    an empty one, 400 "email is required"; with several accounts of that
    email, 500 "User lookup failed"; with one account that has several
    wallets, 500 "Wallet lookup failed" -- which a store with its keys
    never gives. *)
Theorem balance_query_failures (st : store) :
  (forall email, email = None \/ email = Some "" ->
     fst (wallet_by_email email st)
     = Normal (json 400 [("success", VBool false);
                         ("message", VStr "email is required")]))
  /\ (forall e, e <> "" ->
        (2 <= List.length (filter (has_email e) (users st)))%nat ->
        fst (wallet_by_email (Some e) st)
        = Normal (json 500 [("success", VBool false);
                            ("message", VStr "User lookup failed")]))
  /\ (forall e u, e <> "" ->
        filter (has_email e) (users st) = [u] ->
        (2 <= List.length (filter (owned_by (Users.id u)) (wallets st)))%nat ->
        fst (wallet_by_email (Some e) st)
        = Normal (json 500 [("success", VBool false);
                            ("message", VStr "Wallet lookup failed")]))
  /\ (store_ok st ->
      forall email,
        fst (wallet_by_email email st)
        <> Normal (json 500 [("success", VBool false);
                             ("message", VStr "Wallet lookup failed")])).
Proof.
  split; [|split; [|split]].
  - intros email [->| ->]; reflexivity.
  - intros e Hne Hlen. destruct e as [|c r]; [contradiction|].
    unfold wallet_by_email, try_catch, bind, users_by_email, ret.
    destruct (filter (has_email (String c r)) (users st)) as [|a [|b l]];
      simpl in Hlen; try lia. reflexivity.
  - intros e u Hne Hu Hlen. destruct e as [|c r]; [contradiction|].
    unfold wallet_by_email, try_catch, bind, users_by_email, wallets_by_user,
      ret.
    rewrite Hu. cbn [maybeSingle error data].
    destruct (filter (owned_by (Users.id u)) (wallets st)) as [|a [|b l]];
      simpl in Hlen; try lia. reflexivity.
  - intros Hok email.
    destruct email as [[|c r]|]; try discriminate.
    unfold wallet_by_email, try_catch, bind, users_by_email, wallets_by_user,
      ret.
    destruct (filter (has_email (String c r)) (users st)) as [|u [|b l]];
      cbn [maybeSingle error data]; try discriminate.
    pose proof (QueryFacts.owned_by_at_most_one (Users.id u) st Hok) as Hlen.
    destruct (filter (owned_by (Users.id u)) (wallets st)) as [|a [|b l]];
      cbn [maybeSingle error data]; try discriminate.
    simpl in Hlen. lia.
Qed.

Lemma volume_nonneg (k : string) (events : list event) :
  0 <= volume Number_toString k events.
Proof.
  unfold volume.
  induction (filter (fun ev => String.eqb (key_of (payload ev)) k) events)
    as [|ev l IH]; simpl; lia.
Qed.



(** X13.  [calcPoints] reads the number at the head of the text: white
    space before an amount in decimal digits, and text after it that does
    not continue the number, change nothing. *)
Theorem calcPoints_reads_the_leading_amount (negative : bool)
    (ws ip fp s t : string) :
  all_white_space ws = true ->
  all_digits ip = true -> all_digits fp = true -> ip <> "" ->
  s = ip ++ "." ++ fp \/ fp = "" /\ s = ip ->
  plain_text t = true ->
  calcPoints Number_toString
    (VStr (ws ++ (if negative then "-" else "") ++ s ++ t))
  = calcPoints Number_toString (VStr ((if negative then "-" else "") ++ s)).
Proof.
  intros Hws Hip Hfp Hne Hs Ht. unfold calcPoints. cbn [ToString].
  rewrite (AmountFacts.parseFloat_white_space ws _ Hws).
  now rewrite (AmountFacts.parseFloat_decimal_then negative ip fp s t).
Qed.



(** X16.  The name stored for a customer has no white space at either
    end, and a missing part leaves no stray space: with only a first name
    it is the first name trimmed, with only a last name the last name
    trimmed. *)
Theorem name_is_trimmed (order : value) :
  let first_name := property (customer_of order) "first_name" in
  let last_name := property (customer_of order) "last_name" in
  trim (full_name_of order) = full_name_of order
  /\ (forall f, first_name = VStr f -> ToBoolean last_name = false ->
        full_name_of order = trim f)
  /\ (forall l, ToBoolean first_name = false -> last_name = VStr l ->
        full_name_of order = trim l).
Proof.
  cbv zeta. unfold name_of. split; [apply AmountFacts.trim_idempotent|].
  split.
  - intros f -> Hl. unfold or_else at 2. rewrite Hl.
    unfold or_else. cbn [ToBoolean ToString].
    destruct (negb (f =? "")%string) eqn:E.
    + cbn [ToString]. apply AmountFacts.trim_space_r.
    + apply negb_false_iff, String.eqb_eq in E. subst f. reflexivity.
  - intros l Hf ->. unfold or_else at 1. rewrite Hf.
    unfold or_else. cbn [ToBoolean ToString].
    destruct (negb (l =? "")%string) eqn:E.
    + cbn [ToString]. reflexivity.
    + apply negb_false_iff, String.eqb_eq in E. subst l. reflexivity.
Qed.

End Properties.


(** * Examples on the sample platform *)

Local Open Scope string_scope.




(** C4, as stated, fails: without the shared secret the answer is 500,
    not 401. *)
Lemma missing_secret_counterexample :
  signature_verifies Sample.hmac_sha256_base64 None (Sample.signed "O1")
  = false
  /\ Sample.handle_without_secret "t1" (Sample.signed "O1") empty_store
     = (Normal (send 500 "Server error"), empty_store).
Proof. split; reflexivity. Qed.

(** The earlier [calcPoints] gave one point per RM1. *)
Lemma calcPoints_first_example :
  calcPoints_first Sample.Number_toString (VStr "10.00") = Finite (inject_Z 10)
  /\ calcPoints Sample.Number_toString (VStr "10.00") = Finite (inject_Z 30).
Proof. split; reflexivity. Qed.

Lemma unverified_request_witness :
  Sample.handle "t1" (Sample.forged "O1") empty_store
  = (Normal (send 401 "Invalid HMAC"), empty_store).
Proof.
  apply (unverified_request_writes_nothing Sample.Number_toString
           Sample.hmac_sha256_base64 Sample.JSON_parse (Some Sample.secret)
           "t1" (Sample.forged "O1") empty_store).
  reflexivity.
Defined.










(** ** The further properties, on the second sample shop *)

Lemma unparseable_body_witness :
  Shop.handle "t1" (Sample.signed "{") empty_store
  = (Normal (send 500 "Server error"), empty_store)
  /\ Shop.handle "t1" (Sample.signed "null") empty_store
     = (Normal (send 500 "Server error"), empty_store).
Proof.
  split.
  - apply (unparseable_body_is_server_error Sample.Number_toString
             Sample.hmac_sha256_base64 Shop.JSON_parse (Some Sample.secret)
             "t1" (Sample.signed "{") "{" empty_store);
      [reflexivity|reflexivity|left; reflexivity].
  - apply (unparseable_body_is_server_error Sample.Number_toString
             Sample.hmac_sha256_base64 Shop.JSON_parse (Some Sample.secret)
             "t1" (Sample.signed "null") "null" empty_store);
      [reflexivity|reflexivity|right; reflexivity].
Defined.

Lemma invalid_hmac_witness :
  fst (Shop.handle "t1" (Sample.forged "B1") empty_store)
  = Normal (send 401 "Invalid HMAC").
Proof.
  apply (proj2 (invalid_hmac_iff Sample.Number_toString
                  Sample.hmac_sha256_base64 Shop.JSON_parse
                  (Some Sample.secret) "t1" (Sample.forged "B1")
                  empty_store)).
  exists Sample.secret, "B1".
  split; [reflexivity|split; [reflexivity|vm_compute; discriminate]].
Defined.


Lemma award_appends_witness :
  exists u w',
    account "C1" Shop.after_A1 = Some u
    /\ filter (owned_by (Users.id u)) (wallets Shop.after_A1) = [w']
    /\ wallet_transactions Shop.after_A1
       = ([] ++ [{| WalletTransactions.wallet_id := Wallets.id w';
                    WalletTransactions.type := "earn";
                    WalletTransactions.source := "order";
                    WalletTransactions.shopify_order_id := "A1";
                    WalletTransactions.points_change := 37;
                    WalletTransactions.note := "Points from order" |}])%list.
Proof.
  apply (award_appends_one_transaction Sample.Number_toString
           Sample.hmac_sha256_base64 Shop.JSON_parse (Some Sample.secret)
           "t1" (Sample.signed "A1") Shop.A1 empty_store Shop.after_A1 37).
  - exact StoreFacts.empty_store_ok.
  - sample_delivery "A1".
  - vm_compute. reflexivity.
  - vm_compute. reflexivity.
  - is_safe.
  - is_safe.
  - is_safe.
  - is_safe.
Defined.

Lemma ledger_witness : ledger_ok Shop.after_A1.
Proof.
  apply (ledger_stays_consistent Sample.Number_toString
           Sample.hmac_sha256_base64 Shop.JSON_parse (Some Sample.secret)
           "t1" (Sample.signed "A1") Shop.A1 empty_store 37).
  - exact StoreFacts.empty_store_ok.
  - exact LedgerSumFacts.empty_store_ledger_ok.
  - sample_delivery "A1".
  - reflexivity.
  - vm_compute. reflexivity.
  - is_safe.
  - is_safe.
  - is_safe.
  - is_safe.
Defined.

Lemma other_customers_witness :
  balance "C1" (snd (Shop.handle "t2" (Sample.signed "B1") Shop.after_A1))
  = balance "C1" Shop.after_A1.
Proof.
  apply (other_customers_are_untouched Sample.Number_toString
           Sample.hmac_sha256_base64 Shop.JSON_parse (Some Sample.secret)
           "t2" (Sample.signed "B1") Shop.B1 Shop.after_A1 "C1").
  - apply orders_paid_keeps_store_ok. exact StoreFacts.empty_store_ok.
  - sample_delivery "B1".
  - vm_compute. discriminate.
Defined.



Lemma balance_query_failures_witness :
  fst (wallet_by_email (Some "") Shop.twins)
  = Normal (json 400 [("success", VBool false);
                      ("message", VStr "email is required")])
  /\ fst (wallet_by_email (Some "t@example.com") Shop.twins)
     = Normal (json 500 [("success", VBool false);
                         ("message", VStr "User lookup failed")])
  /\ fst (wallet_by_email (Some "u@example.com") Shop.twins)
     = Normal (json 500 [("success", VBool false);
                         ("message", VStr "Wallet lookup failed")])
  /\ fst (wallet_by_email (Some "u@example.com") Shop.after_A1)
     <> Normal (json 500 [("success", VBool false);
                          ("message", VStr "Wallet lookup failed")]).
Proof.
  destruct (balance_query_failures Shop.twins)
    as (Hrequired & Husers & Hwallets & _).
  destruct (balance_query_failures Shop.after_A1) as (_ & _ & _ & Hkeys).
  split; [apply Hrequired; now right|].
  split; [apply Husers; [discriminate|simpl; lia]|].
  split.
  - apply (Hwallets "u@example.com"
             {| Users.id := 3; Users.shopify_customer_id := "C3";
                Users.email := VStr "u@example.com"; Users.name := "Uma" |});
      [discriminate|reflexivity|simpl; lia].
  - apply Hkeys. apply orders_paid_keeps_store_ok.
    exact StoreFacts.empty_store_ok.
Defined.


Lemma leading_amount_witness :
  calcPoints Sample.Number_toString (VStr " 12.50 MYR")
  = calcPoints Sample.Number_toString (VStr "12.50").
Proof.
  apply (calcPoints_reads_the_leading_amount Sample.Number_toString false
           " " "12" "50" "12.50" " MYR");
    [reflexivity|reflexivity|reflexivity|discriminate|left; reflexivity
    |reflexivity].
Defined.



Lemma name_witness :
  name_of Sample.Number_toString Shop.B1 = trim "Bob".
Proof.
  destruct (name_is_trimmed Sample.Number_toString Shop.B1)
    as (_ & Hfirst & _).
  apply (Hfirst "Bob"); reflexivity.
Defined.
